(** * The experiment-grid evaluation engine of [main.py]

    A shallow embedding of the grid driver of the activity-recognition
    benchmark: the per-fold parameter bundles, pool generation, fold
    evaluation with its strategy-specific branches, and the aggregation of the
    per-fold confusion matrices into one matrix shaped to the canonical class
    list.

    The statistical-learning libraries the driver calls are an interface
    ([Library]); the calls made to them are recorded, in order, by the monad
    the driver runs in.  The two pandas operations the aggregation is built
    from ([DataFrame.loc] assignment and [concat/groupby/sum]) are modelled on
    frames with explicit row and column labels. *)

From Stdlib Require Import ZArith Lia Ascii.
From stdpp Require Import base decidable option list strings gmap sorting pretty.

Set Default Proof Using "Type".

(** ** Python exceptions and results *)

Inductive Exn : Type :=
| ValueError
| IndexError
| KeyError (key : string)
| Raised (reason : string).

Definition Res (A : Type) : Type := (Exn + A)%type.

Definition res_bind {A B : Type} (r : Res A) (k : A → Res B) : Res B :=
  match r with
  | inl e => inl e
  | inr a => k a
  end.

Fixpoint res_mapM {A B : Type} (f : A → Res B) (l : list A) : Res (list B) :=
  match l with
  | [] => inr []
  | a :: l' =>
      res_bind (f a) (λ b, res_bind (res_mapM f l') (λ bs, inr (b :: bs)))
  end.

(** ** Strategy identities, as [__main__] enumerates them *)

Inductive GenMethod : Type := BaggingClassifier | AdaBoostClassifier | SGH.

Inductive Method : Type :=
| RandomForestClassifier
| OLA | LCA | MCB | Rank
| KNORAU | KNORAE | DESKNN | DESP | DESMI | DESClustering | METADES | KNOP
| Oracle.

Inductive ImbMethod : Type :=
| SMOTE | RandomOverSampler | RandomUnderSampler | InstanceHardnessThreshold.

#[global] Instance GenMethod_eq_dec : EqDecision GenMethod.
Proof. solve_decision. Defined.
#[global] Instance Method_eq_dec : EqDecision Method.
Proof. solve_decision. Defined.
#[global] Instance ImbMethod_eq_dec : EqDecision ImbMethod.
Proof. solve_decision. Defined.

Definition baseline : list Method := [RandomForestClassifier].
Definition imb_methods : list ImbMethod :=
  [SMOTE; RandomOverSampler; RandomUnderSampler; InstanceHardnessThreshold].
Definition gen_methods : list GenMethod := [BaggingClassifier; AdaBoostClassifier; SGH].
Definition ds_methods_dcs : list Method := [OLA; LCA; MCB; Rank].
Definition ds_methods_des : list Method :=
  [KNORAU; KNORAE; DESKNN; DESP; DESMI; DESClustering; METADES; KNOP].
Definition ds_methods : list Method :=
  baseline ++ ds_methods_dcs ++ ds_methods_des ++ [Oracle].
Definition datasets : list string :=
  ["HH103"; "HH124"; "HH129"; "Kyoto2008"; "Kyoto2009Spring"].

(** Number of trees for each fold of each dataset of [datasets]. *)
Definition params : list (list Z) :=
  [ [70; 80; 80; 80; 50; 90]; [60; 60; 30; 40; 60; 50];
    [90; 80; 80; 90; 80; 90]; [50; 60; 20; 20; 20; 60];
    [100; 80; 90; 90; 90; 80] ]%Z.

(** ** Labels and matrices *)

(** A numeric label is what [labels_dict.get] returns: an integer, or [None]
    for a raw label the dictionary does not hold. *)
Abbreviation Label := (option Z) (only parsing).

Abbreviation Matrix := (list (list Z)) (only parsing).

Definition sumZ (l : list Z) : Z := foldr Z.add 0%Z l.

Definition matrix_total (m : Matrix) : Z := sumZ (sumZ <$> m).

(** A [k] x [k] array. *)
Definition square (k : nat) (m : Matrix) : Prop :=
  length m = k ∧ Forall (λ row, length row = k) m.

(** The top-left [k] x [k] block. *)
Definition top_left {A : Type} (k : nat) (m : list (list A)) : list (list A) :=
  take k (take k <$> m).

(** The numbers of a matrix as frame cells. *)
Definition cells (m : Matrix) : list (list (option Z)) :=
  (λ row : list Z, Some <$> row) <$> m.

Definition matrix_add (a b : Matrix) : Matrix := zip_with (zip_with Z.add) a b.

Definition zero_matrix (n : nat) : Matrix := replicate n (replicate n 0%Z).

(** The element-wise sum of a list of [n] x [n] matrices, as the aggregation
    contract words it. *)
Definition elementwise_sum (n : nat) (ms : list Matrix) : Matrix :=
  foldr matrix_add (zero_matrix n) ms.

(** Entry [k], [j] of a matrix, 0 outside it. *)
Definition mentry (m : Matrix) (k j : nat) : Z :=
  default 0%Z (m !! k ≫= (.!! j)).

(** ** numpy *)

Module np.

(** [np.concatenate(arrays, axis=0)] on one-dimensional arrays; it needs at
    least one array. *)
Definition concatenate {A : Type} (arrays : list (list A)) : Res (list A) :=
  match arrays with
  | [] => inl ValueError
  | _ => inr (concat arrays)
  end.

End np.

(** ** pandas frames *)

Module pd.

(** A cell holds a number or NaN ([None]). *)
Abbreviation cell := (option Z) (only parsing).

Definition nan_to_zero (c : option cell) : Z :=
  match c with
  | Some (Some z) => z
  | _ => 0%Z
  end.

Record DataFrame : Type := mkDataFrame {
  index : list nat;
  columns : list string;
  values : list (list cell)
}.

(** [pd.DataFrame(0, index=index, columns=columns)] *)
Definition zeros (index : list nat) (columns : list string) : DataFrame :=
  mkDataFrame index columns
    (replicate (length index) (replicate (length columns) (Some 0%Z))).

(** The positions, from [j] on, at which the labels [labels] hold [c]. *)
Fixpoint get_loc_from {A : Type} `{EqDecision A} (c : A) (labels : list A) (j : nat)
  : list nat :=
  match labels with
  | [] => []
  | c' :: rest =>
      if decide (c' = c) then j :: get_loc_from c rest (S j)
      else get_loc_from c rest (S j)
  end.

(** [Index.get_indexer_for(keys)]: for each key in turn every position that
    carries it; a key that labels no column is a [KeyError]. *)
Fixpoint get_indexer_for (labels : list string) (keys : list string)
  : Res (list nat) :=
  match keys with
  | [] => inr []
  | c :: keys' =>
      match get_loc_from c labels 0 with
      | [] => inl (KeyError c)
      | locs => res_bind (get_indexer_for labels keys') (λ rest, inr (locs ++ rest))
      end
  end.

(** Writes [vals] into the cells of [row] at the positions [ilocs]. *)
Fixpoint set_cells (row : list cell) (ilocs : list nat) (vals : list Z) : list cell :=
  match ilocs, vals with
  | j :: ilocs', v :: vals' => set_cells (<[j := Some v]> row) ilocs' vals'
  | _, _ => row
  end.

(** [data.loc[i, keys] = vals] for a row label [i], a list of column labels
    and a one-dimensional array of values.  The number of addressed cells
    must be the number of values ([ValueError] otherwise).  A row label of
    the index has its row updated in place; a row label outside the index
    enlarges the frame by a row that is NaN outside the addressed cells. *)
Definition loc_setitem (data : DataFrame) (i : nat) (keys : list string)
    (vals : list Z) : Res DataFrame :=
  res_bind (get_indexer_for (columns data) keys) (λ ilocs,
    if decide (length ilocs = length vals) then
      match get_loc_from i (index data) 0 with
      | [] =>
          inr (mkDataFrame (index data ++ [i]) (columns data)
                 (values data ++
                    [set_cells (replicate (length (columns data)) None) ilocs vals]))
      | rlocs =>
          inr (mkDataFrame (index data) (columns data)
                 (foldl (λ vs r, alter (λ row, set_cells row ilocs vals) r vs)
                    (values data) rlocs))
      end
    else inl ValueError).

(** [pd.concat(dfs, axis=0)] for frames that carry the same columns (every
    frame built by [save_metrics] carries [activities_list]): the rows are
    stacked with their labels.  Nothing to concatenate is a [ValueError]. *)
Definition concat (dfs : list DataFrame) : Res DataFrame :=
  match dfs with
  | [] => inl ValueError
  | df :: _ =>
      inr (mkDataFrame (dfs ≫= index) (columns df) (dfs ≫= values))
  end.

(** The rows of [df] whose label is [k]. *)
Definition rows_with_label (k : nat) (df : DataFrame) : list (list cell) :=
  snd <$> filter (λ p, p.1 = k) (zip (index df) (values df)).

(** [df.groupby(level=0).sum()]: one row per distinct row label, in
    increasing order, each the column-wise sum of the rows that carry the
    label (NaN counts as nothing). *)
Definition groupby_level0_sum (df : DataFrame) : DataFrame :=
  let keys := merge_sort (≤) (remove_dups (index df)) in
  mkDataFrame keys (columns df)
    ((λ k,
        (λ j, Some (sumZ ((λ row, nan_to_zero (row !! j)) <$> rows_with_label k df)))
          <$> seq 0 (length (columns df)))
       <$> keys).

(** The numbers of a frame, NaN read as 0. *)
Definition to_matrix (df : DataFrame) : Matrix :=
  (λ row : list (option Z), (λ c, nan_to_zero (Some c)) <$> row) <$> values df.

(** Entry [k], [j] of a frame, 0 outside it and for NaN. *)
Definition fentry (df : DataFrame) (k j : nat) : Z :=
  nan_to_zero (values df !! k ≫= (.!! j)).

(** A frame shaped to [n] classes: rows labelled [0 .. n-1], [n] columns. *)
Definition canonical (n : nat) (df : DataFrame) : Prop :=
  index df = seq 0 n ∧ length (columns df) = n ∧
  length (values df) = n ∧ Forall (λ row, length row = n) (values df).

End pd.

(** ** The confusion matrix of a fold *)

(** The order of labels: the missing label first, numbers increasing. *)
Definition label_le (a b : Label) : Prop :=
  match a, b with
  | None, _ => True
  | Some _, None => False
  | Some x, Some y => (x ≤ y)%Z
  end.

#[global] Instance label_le_dec (a b : Label) : Decision (label_le a b).
Proof. destruct a, b; simpl; apply _. Defined.

(** The distinct labels present in the true or the predicted labels. *)
Definition observed_labels (y_true y_pred : list Label) : list Label :=
  merge_sort label_le (remove_dups (y_true ++ y_pred)).

Definition count_pairs (a b : Label) (pairs : list (Label * Label)) : Z :=
  Z.of_nat (length (filter (λ p, p = (a, b)) pairs)).

(** Modelled from the spec: [confusion_matrix_score] of the module [metrics],
    which is not part of the sources at hand.  The matrix is square, sized to
    the number of distinct labels present in the union of predicted and true
    labels of the fold; row [i], column [j] counts the test examples whose
    true label is the [i]-th observed label and whose predicted label is the
    [j]-th. *)
Definition confusion_matrix_score (y_true y_pred : list Label) : Matrix :=
  let labels := observed_labels y_true y_pred in
  (λ a, (λ b, count_pairs a b (zip y_true y_pred)) <$> labels) <$> labels.

(** ** Aggregation: [save_metrics] *)

(** The loop over the rows of one fold matrix:
    [for i, row in enumerate(cm): data.loc[i, activities_list[:len(row)]] = row] *)
Fixpoint embed_rows (activities_list : list string) (data : pd.DataFrame) (i : nat)
    (rows : Matrix) : Res pd.DataFrame :=
  match rows with
  | [] => inr data
  | row :: rest =>
      let columnList := take (length row) activities_list in
      res_bind (pd.loc_setitem data i columnList row) (λ data',
        embed_rows activities_list data' (S i) rest)
  end.

(** One fold matrix re-embedded into a zero frame shaped to the canonical
    class list. *)
Definition embed (activities_list : list string) (cm : Matrix) : Res pd.DataFrame :=
  let data := pd.zeros (seq 0 (length activities_list)) activities_list in
  embed_rows activities_list data 0 cm.

(** A fold row padded with zeros to the canonical width. *)
Definition pad (n : nat) (row : list Z) : list (option Z) :=
  (Some <$> row) ++ replicate (n - length row) (Some 0%Z).

(** The frame an embedding yields when the fold matrix fits: the fold matrix
    in the top-left corner of a zero frame. *)
Definition embedded (activities_list : list string) (cm : Matrix) : pd.DataFrame :=
  pd.mkDataFrame (seq 0 (length activities_list)) activities_list
    ((pad (length activities_list) <$> cm)
       ++ replicate (length activities_list - length cm)
            (replicate (length activities_list) (Some 0%Z))).

(** The observed labels are a prefix of the canonical ordering: the classes
    [0 .. k-1]. *)
Definition prefix_labels (labels : list Label) : Prop :=
  labels = (λ i, Some (Z.of_nat i)) <$> seq 0 (length labels).

(** ** The learning libraries *)

(** The data the libraries work on. *)
Class Domain : Type := {
  feat : Type;       (* a feature vector *)
  base_clf : Type;   (* a trained base learner, member of a generated pool *)
  ensemble : Type;   (* a fitted forest or a fitted dynamic selector *)
  metric : Type      (* a score: a scalar or a per-class vector *)
}.

(** [Perceptron(max_iter=..., n_jobs=...)], the base-learner template. *)
Record Perceptron : Type := mkPerceptron { max_iter : Z; n_jobs : Z }.

(** The members a pool can hold: a trained base learner, or a calibration
    layer around a member, with the mode it was built in and the data it was
    fit on (if it was). *)
Inductive Estimator `{Domain} : Type :=
| Trained (c : base_clf)
| CalibratedClassifierCV (base_estimator : Estimator) (cv : string)
    (fit_on : option (list feat * list Label)).

(** What the driver asks of [utils], [metrics], scikit-learn and DESlib.  A
    call returns or raises. *)
Class Library `{Domain} : Type := {
  balance_dataset : list feat → list Label → ImbMethod → Res (list feat * list Label);
  gen_ensemble :
    list feat → list Label → GenMethod → Perceptron → nat → Res (list base_clf);
  (* RandomForestClassifier(n_estimators=n).fit(X, y) *)
  forest_fit : Z → list feat → list Label → Res ensemble;
  (* whether calibrated.fit(X, y) raises *)
  calibration_error : Estimator → string → list feat → list Label → option Exn;
  ds_ensemble : list feat → list Label → list Estimator → Method → Res ensemble;
  (* ensemble.predict(X) and ensemble.predict(X, y) *)
  predict : ensemble → list feat → option (list Label) → Res (list Label);
  multi_label_Fmeasure : list Label → list Label → Res metric;
  geometric_mean : list Label → list Label → string → Res metric;
  accuracy_by_class : list Label → list Label → Res metric;
  accuracy : list Label → list Label → Res metric;
  precision : list Label → list Label → string → Res metric;
  recall : list Label → list Label → string → Res metric;
  fmeasure_score : list Label → list Label → string → Res metric
}.

(** The calls the driver makes, as a recorded event each.  The last three
    are the calls on a [multiprocessing.Pool]: its creation, a list of [jobs]
    tasks handed to its workers ([pool.map]), and [pool.close()]. *)
Inductive Call `{Domain} : Type :=
| call_balance_dataset (X : list feat) (y : list Label) (imb : ImbMethod)
| call_gen_ensemble (X : list feat) (y : list Label) (gen : GenMethod)
    (base : Perceptron) (n_estimators : nat)
| call_RandomForestClassifier (n_estimators : Z)
| call_forest_fit (n_estimators : Z) (X : list feat) (y : list Label)
| call_CalibratedClassifierCV (base_estimator : Estimator) (cv : string)
| call_calibrated_fit (base_estimator : Estimator) (cv : string)
    (X : list feat) (y : list Label)
| call_ds_ensemble (X : list feat) (y : list Label) (pool : list Estimator)
    (method : Method)
| call_predict (e : ensemble) (X : list feat) (y : option (list Label))
| call_confusion_matrix_score (y_true y_pred : list Label)
| call_metric (name : string) (y_true y_pred : list Label)
| call_Pool (processes : nat)
| call_pool_map (jobs : nat)
| call_pool_close.

(** ** The monad of the driver *)

(** The pools are Python objects, held by identity: object [l] of the store
    is the sequence of members of pool [l]. *)
Abbreviation Store := (list (list Estimator)) (only parsing).

(** A computation reads and updates the store, records the calls it makes,
    and returns or raises. *)
Definition M `{Domain} (A : Type) : Type := Store → list Call * Store * Res A.

Definition ret `{Domain} {A : Type} (a : A) : M A := λ σ, ([], σ, inr a).

Definition bind `{Domain} {A B : Type} (m : M A) (k : A → M B) : M B :=
  λ σ,
    match m σ with
    | (c1, σ1, inl e) => (c1, σ1, inl e)
    | (c1, σ1, inr a) =>
        match k a σ1 with
        | (c2, σ2, r) => (c1 ++ c2, σ2, r)
        end
    end.

Definition raise `{Domain} {A : Type} (e : Exn) : M A := λ σ, ([], σ, inl e).

(** An external call: recorded, then its outcome. *)
Definition ext `{Domain} {A : Type} (c : Call) (r : Res A) : M A := λ σ, ([c], σ, r).

(** [d[key]] on a dictionary entry that may be absent. *)
Definition getitem `{Domain} {A : Type} (key : string) (v : option A) : M A :=
  match v with
  | Some a => ret a
  | None => raise (KeyError key)
  end.

(** A new list object. *)
Definition new_list `{Domain} (members : list Estimator) : M nat :=
  λ σ, ([], σ ++ [members], inr (length σ)).

(** [l.append(x)] on the list object [l]. *)
Definition list_append `{Domain} (l : nat) (x : Estimator) : M unit :=
  λ σ, ([], alter (λ members, members ++ [x]) l σ, inr ()).

(** The members of the list object [l]. *)
Definition list_members `{Domain} (l : nat) : M (list Estimator) :=
  λ σ,
    match σ !! l with
    | Some members => ([], σ, inr members)
    | None => ([], σ, inl (Raised "no such object"))
    end.

Declare Scope driver_scope.
Delimit Scope driver_scope with driver.
Notation "'let!' x ':=' m 'in' k" := (bind m (λ x, k))
  (at level 10, x name, m at level 100, k at level 200) : driver_scope.
Notation "m ';;' k" := (bind m (λ _, k))
  (at level 100, k at level 200, right associativity) : driver_scope.
Open Scope driver_scope.

(** [for x in l: body(x)] *)
Fixpoint for_each `{Domain} {A : Type} (l : list A) (body : A → M unit) : M unit :=
  match l with
  | [] => ret ()
  | x :: l' => body x ;; for_each l' body
  end.

(** [list(map(f, l))], the built-in [map]: one call after the other, in the
    order of [l]. *)
Fixpoint map_list `{Domain} {A B : Type} (f : A → M B) (l : list A) : M (list B) :=
  match l with
  | [] => ret []
  | x :: l' =>
      let! b := f x in
      let! bs := map_list f l' in
      ret (b :: bs)
  end.

(** The calls a computation makes from a store. *)
Definition calls_of `{Domain} {A : Type} (m : M A) (σ : Store) : list Call := (m σ).1.1.

(** Every call a computation makes satisfies [P]. *)
Definition emits `{Domain} {A : Type} (P : Call → Prop) (m : M A) : Prop :=
  ∀ σ, Forall P (calls_of m σ).

(** The calls that hand a pool, or a member of one, to a library. *)
Definition uses_pool `{Domain} (c : Call) : Prop :=
  match c with
  | call_CalibratedClassifierCV _ _ | call_calibrated_fit _ _ _ _
  | call_ds_ensemble _ _ _ _ => True
  | _ => False
  end.

(** ** The per-fold parameter bundle *)

(** Modelled from the spec: the class of the folds that [load_dataset]
    returns is not part of the sources at hand.  [main.py] reads the four
    attributes [xTrain], [yTrains[noise]], [xTest] and [yTest] of a fold;
    the design gives the label variants as a mapping from the noise level to
    the training labels of that level, aligned to [xTrain]. *)
Record Fold `{Domain} : Type := mkFold {
  xTrain : list feat;
  yTrains : gmap nat (list string);   (* noise level -> training labels *)
  xTest : list feat;
  yTest : list string
}.

(** The dictionary [args] of a fold.  The four data entries are there from
    [experiment_parameters] on; the others are absent until the driver sets
    them. *)
Record Args `{Domain} : Type := mkArgs {
  X_train : list feat;
  y_train : list Label;
  X_test : list feat;
  y_test : list Label;
  gen_method : option GenMethod;
  imb_method : option (option ImbMethod);
  pool_clf : option nat;
  fold_name : option string;
  noise : option nat;
  ds_method : option Method;
  params_rf : option Z
}.

(** [fold.yTrains[noise]] on a level the mapping lacks raises as a mapping
    does, with the [KeyError] of the level. *)
Definition experiment_parameters `{Domain} (folds : list Fold) (noise : nat)
    (labels_dict : gmap string Z) : Res (list Args) :=
  res_mapM (λ fold,
    match yTrains fold !! noise with
    | None => inl (KeyError (pretty noise))
    | Some y_train =>
        inr {| X_train := xTrain fold;
               y_train := (λ x, labels_dict !! x) <$> y_train;
               X_test := xTest fold;
               y_test := (λ x, labels_dict !! x) <$> yTest fold;
               gen_method := None; imb_method := None; pool_clf := None;
               fold_name := None; noise := None; ds_method := None;
               params_rf := None |}
    end) folds.

(** ** Pool generation *)

Definition process_generation `{Library} (args : Args) : M nat :=
  let X_train := X_train args in
  let y_train := y_train args in
  let! gen_method := getitem "gen_method" (gen_method args) in
  let! imb_method := getitem "imb_method" (imb_method args) in
  let! balanced :=
    match imb_method with
    | Some imb =>
        (* In cases where the imbalanced learning techniques have been used *)
        ext (call_balance_dataset X_train y_train imb)
            (balance_dataset X_train y_train imb)
    | None => ret (X_train, y_train)
    end in
  let '(X_train, y_train) := balanced in
  let base := mkPerceptron 1000 (-1) in
  let n_estimators := 100 in
  let! pool :=
    ext (call_gen_ensemble X_train y_train gen_method base n_estimators)
        (gen_ensemble X_train y_train gen_method base n_estimators) in
  new_list (Trained <$> pool).

(** [param['gen_method'] = gen_method; param['imb_method'] = imb_method] *)
Definition set_generation `{Domain} (gen : GenMethod) (imb : option ImbMethod)
    (param : Args) : Args :=
  {| X_train := X_train param; y_train := y_train param;
     X_test := X_test param; y_test := y_test param;
     gen_method := Some gen; imb_method := Some imb;
     pool_clf := pool_clf param; fold_name := fold_name param;
     noise := noise param; ds_method := ds_method param;
     params_rf := params_rf param |}.

(** The bundles are updated in place; they are returned here next to the
    pools, as the caller finds them afterwards. *)
Definition experiment_generation `{Library} (parameters : list Args)
    (gen_method : GenMethod) (imb_method : option ImbMethod)
    : M (list Args * list nat) :=
  let generation := set_generation gen_method imb_method <$> parameters in
  let! pools := map_list process_generation generation in
  ret (generation, pools).

(** ** Fold evaluation *)

Definition process_metrics `{Library} (y_test predictions : list Label)
    : M (list metric) :=
  let! mfm := ext (call_metric "multi_label_Fmeasure" y_test predictions)
                  (multi_label_Fmeasure y_test predictions) in
  let! gmean := ext (call_metric "geometric_mean" y_test predictions)
                    (geometric_mean y_test predictions "multiclass") in
  let! acc_by_class := ext (call_metric "accuracy_by_class" y_test predictions)
                           (accuracy_by_class y_test predictions) in
  let! acc := ext (call_metric "accuracy" y_test predictions)
                  (accuracy y_test predictions) in
  let! prec := ext (call_metric "precision" y_test predictions)
                   (precision y_test predictions "macro") in
  let! rec := ext (call_metric "recall" y_test predictions)
                  (recall y_test predictions "macro") in
  let! fmeasure := ext (call_metric "fmeasure_score" y_test predictions)
                       (fmeasure_score y_test predictions "macro") in
  ret [mfm; gmean; acc; prec; rec; fmeasure; acc_by_class].

(** The list [[fold_name, conf_matrix, metrics, predictions]] a fold
    evaluation returns. *)
Record FoldResult `{Domain} : Type := mkFoldResult {
  res_fold_name : string;
  res_conf_matrix : Matrix;
  res_metrics : list metric;
  res_predictions : list Label
}.

(** The calibration loop: a new list [calibrated_pool], filled with one
    calibration layer per member of the pool, built around the member in
    ['prefit'] mode and fit on the training data. *)
Definition calibrate_pool `{Library} (X_train : list feat) (y_train : list Label)
    (pool_clf : nat) : M nat :=
  let! calibrated_pool := new_list [] in
  let! members := list_members pool_clf in
  for_each members (λ clf,
    ext (call_CalibratedClassifierCV clf "prefit") (inr ()) ;;
    ext (call_calibrated_fit clf "prefit" X_train y_train)
        (match calibration_error clf "prefit" X_train y_train with
         | Some e => inl e
         | None => inr ()
         end) ;;
    list_append calibrated_pool
      (CalibratedClassifierCV clf "prefit" (Some (X_train, y_train)))) ;;
  ret calibrated_pool.

Definition process_selection `{Library} (args : Args) : M FoldResult :=
  let X_train := X_train args in
  let y_train := y_train args in
  let X_test := X_test args in
  let y_test := y_test args in
  let! pool_clf := getitem "pool_clf" (pool_clf args) in
  let! fold_name := getitem "fold_name" (fold_name args) in
  let! gen_method := getitem "gen_method" (gen_method args) in
  let! method := getitem "ds_method" (ds_method args) in
  let! params_rf := getitem "params" (params_rf args) in
  let! ensemble :=
    if decide (method = RandomForestClassifier) then
      (* Evaluation considering Random Forest *)
      ext (call_RandomForestClassifier params_rf) (inr ()) ;;
      let! ensemble := ext (call_forest_fit params_rf X_train y_train)
                           (forest_fit params_rf X_train y_train) in
      let! predictions := ext (call_predict ensemble X_test None)
                              (predict ensemble X_test None) in
      ret ensemble
    else
      let! pool_clf :=
        if decide (gen_method = SGH ∧ (method = METADES ∨ method = KNOP)) then
          calibrate_pool X_train y_train pool_clf
        else ret pool_clf in
      (* Dynamic Selection techniques *)
      let! pool := list_members pool_clf in
      ext (call_ds_ensemble X_train y_train pool method)
          (ds_ensemble X_train y_train pool method) in
  (* In prediction phase, two options: Oracle and DS techniques *)
  let! predictions :=
    if decide (method = Oracle) then
      ext (call_predict ensemble X_test (Some y_test))
          (predict ensemble X_test (Some y_test))
    else
      ext (call_predict ensemble X_test None) (predict ensemble X_test None) in
  let! conf_matrix :=
    ext (call_confusion_matrix_score y_test predictions)
        (inr (confusion_matrix_score y_test predictions)) in
  let! metrics := process_metrics y_test predictions in
  ret {| res_fold_name := fold_name; res_conf_matrix := conf_matrix;
         res_metrics := metrics; res_predictions := predictions |}.

(** The six entries [experiment_selection] sets in the bundle of fold [f]. *)
Definition set_selection `{Domain} (pool : nat) (f : nat) (noise_level : nat)
    (dyn_selector : Method) (gen : GenMethod) (n : Z) (param : Args) : Args :=
  {| X_train := X_train param; y_train := y_train param;
     X_test := X_test param; y_test := y_test param;
     gen_method := Some gen; imb_method := imb_method param;
     pool_clf := Some pool;
     fold_name := Some ("Fold_" +:+ pretty (f + 1));
     noise := Some noise_level; ds_method := Some dyn_selector;
     params_rf := Some n |}.

(** The loop that completes the bundles of a cell: for fold [f] on, the
    bundle and the pool of each fold in turn. *)
Fixpoint make_jobs `{Domain} (f : nat) (parameters : list Args) (pool_gen : list nat)
    (iteration : nat) (gen : GenMethod) (dyn_selector : Method) (noise_level : nat)
    : Res (list Args) :=
  match parameters, pool_gen with
  | param :: parameters', pool :: pool_gen' =>
      match params !! iteration ≫= (.!! f) with
      | None => inl IndexError
      | Some n =>
          res_bind
            (make_jobs (S f) parameters' pool_gen' iteration gen dyn_selector noise_level)
            (λ jobs,
               inr (set_selection pool f noise_level dyn_selector gen n param :: jobs))
      end
  | _, _ => inr []
  end.

Definition experiment_selection `{Library} (parameters : list Args) (pool_gen : list nat)
    (iteration : nat) (gen : GenMethod) (dyn_selector : Method) (noise_level : nat)
    : M (list FoldResult) :=
  ext (call_Pool 5) (inr ()) ;;
  let! jobs := (λ σ, ([], σ, make_jobs 0 parameters pool_gen iteration gen dyn_selector
                               noise_level)) in
  let! results := map_list process_selection jobs in
  ext call_pool_close (inr ()) ;;
  ret results.

(** ** Aggregation *)

(** What [save_metrics] hands on to the plot and to the result tables. *)
Record Aggregate `{Domain} : Type := mkAggregate {
  agg_folds_name : list string;
  agg_predictions : list Label;
  agg_dfs : list pd.DataFrame;
  agg_cm : pd.DataFrame;
  agg_metrics : list (list metric)
}.

Definition save_metrics `{Domain} (results : list FoldResult)
    (activities_list : list string) : Res Aggregate :=
  let folds_name := res_fold_name <$> results in
  (* Get predictions *)
  res_bind (np.concatenate (res_predictions <$> results)) (λ predictions,
  let confusion_mx := res_conf_matrix <$> results in
  res_bind (res_mapM (embed activities_list) confusion_mx) (λ dfs,
  (* Concat confusion matrix per folds *)
  res_bind (pd.concat dfs) (λ all_rows,
  let comp_df := pd.groupby_level0_sum all_rows in
  inr {| agg_folds_name := folds_name; agg_predictions := predictions;
         agg_dfs := dfs; agg_cm := comp_df;
         agg_metrics := res_metrics <$> results |}))).

(** ** Vocabulary of the statements *)

(** The label argument the evaluation of [args] gives to [predict]: the test
    labels for the oracle, none otherwise. *)
Definition predict_labels `{Domain} (args : Args) : option (list Label) :=
  if decide (ds_method args = Some Oracle) then Some (y_test args) else None.

(** What a prediction call of the evaluation of [args] is given. *)
Definition predict_contract `{Domain} (args : Args) (c : Call) : Prop :=
  ∀ e X y, c = call_predict e X y → X = X_test args ∧ y = predict_labels args.

(** The call is not a task handed to the worker pool. *)
Definition not_pool_map `{Domain} (c : Call) : Prop := ∀ j, c ≠ call_pool_map j.

(** A member wrapped in a calibration layer in ['prefit'] mode, fit on
    [(X, y)]. *)
Definition calibrated `{Domain} (X : list feat) (y : list Label) (clf : Estimator)
    : Estimator :=
  CalibratedClassifierCV clf "prefit" (Some (X, y)).

(** The two calls that calibrate one member. *)
Definition calibration_calls `{Domain} (X : list feat) (y : list Label)
    (clf : Estimator) : list Call :=
  [call_CalibratedClassifierCV clf "prefit"; call_calibrated_fit clf "prefit" X y].

(** ** Names of the strategies *)

Module py.

(** [s.split(sep)] for a separator of one character: the pieces between the
    occurrences of [sep], at least one piece. *)
Fixpoint split (sep : Ascii.ascii) (s : string) : list string :=
  match s with
  | EmptyString => [EmptyString]
  | String c s' =>
      if decide (c = sep) then EmptyString :: split sep s'
      else match split sep s' with
           | piece :: pieces => String c piece :: pieces
           | [] => [String c EmptyString]
           end
  end.

(** The character [c] does not occur in [s]. *)
Fixpoint absent (c : Ascii.ascii) (s : string) : Prop :=
  match s with
  | EmptyString => True
  | String c' s' => c' ≠ c ∧ absent c s'
  end.

End py.

(** [str(method).split('.')[-1].split('\'')[0]], on the text [repr] that
    [str] gives for the strategy: the name [save_metrics] and [__main__]
    show and file the results under. *)
Definition method_name (repr : string) : string :=
  default EmptyString
    (head (py.split "'"%char (default EmptyString (last (py.split "."%char repr))))).

(** Two bundles hold the same fold data. *)
Definition same_data `{Domain} (a b : Args) : Prop :=
  X_train a = X_train b ∧ y_train a = y_train b ∧
  X_test a = X_test b ∧ y_test a = y_test b.

(** The computation neither reads nor changes the store: its calls and its
    outcome are the same from every store. *)
Definition store_free `{Domain} {A : Type} (m : M A) : Prop :=
  ∃ calls r, ∀ σ, m σ = (calls, σ, r).

(** ** A small instance of the libraries

    Feature vectors are integers, a base learner is its rank in the pool, and
    every call is a simple function of its arguments: a prediction is the
    feature read as a label (the oracle returns the labels it is given),
    calibration fails on a single-class training set, a selector needs two
    pool members, and resampling needs two examples. *)

Module Demo.

Inductive DemoEnsemble : Type :=
| Forest (n_estimators : Z)
| Selector (method : Method) (pool_size : nat).

#[export] Instance domain : Domain :=
  {| feat := Z; base_clf := nat; ensemble := DemoEnsemble; metric := Z |}.

Definition demo_predict (e : DemoEnsemble) (X : list Z) (y : option (list Label))
    : Res (list Label) :=
  match y with
  | None => inr (Some <$> X)
  | Some y => if decide (length y = length X) then inr y else inl ValueError
  end.

#[export] Instance library : Library :=
  {| balance_dataset X y imb :=
       if decide (length X < 2) then inl (Raised "too few examples to resample")
       else inr (X, y);
     gen_ensemble X y gen base n := inr (seq 0 n);
     forest_fit n X y := inr (Forest n);
     calibration_error clf cv X y :=
       if decide (length (remove_dups y) < 2)
       then Some (Raised "calibration needs two classes") else None;
     ds_ensemble X y pool method :=
       if decide (length pool < 2) then inl (Raised "pool too small")
       else inr (Selector method (length pool));
     predict := demo_predict;
     multi_label_Fmeasure y p := inr 0%Z;
     geometric_mean y p mode := inr 0%Z;
     accuracy_by_class y p := inr 0%Z;
     accuracy y p := inr 0%Z;
     precision y p mode := inr 0%Z;
     recall y p mode := inr 0%Z;
     fmeasure_score y p mode := inr 0%Z |}.

Definition activities : list string := ["walk"; "sleep"; "cook"].

Definition labels_dict : gmap string Z :=
  <["walk" := 0%Z]> (<["sleep" := 1%Z]> (<["cook" := 2%Z]> ∅)).

(** Three folds, each with the label variants of noise levels 0 and 1; the
    second one tests on all three classes, the others on [walk] and [cook]
    only.  At noise level 1 the training labels of the second fold are of
    one class. *)
Definition folds : list Fold :=
  [ {| xTrain := [0; 1; 2; 0]%Z;
       yTrains := <[0 := ["walk"; "sleep"; "cook"; "walk"]]>
                    (<[1 := ["walk"; "cook"; "cook"; "walk"]]> ∅);
       xTest := [0; 2; 2]%Z; yTest := ["walk"; "cook"; "walk"] |};
    {| xTrain := [1; 2; 0]%Z;
       yTrains := <[0 := ["sleep"; "cook"; "walk"]]>
                    (<[1 := ["sleep"; "sleep"; "sleep"]]> ∅);
       xTest := [0; 1; 2; 1]%Z; yTest := ["walk"; "sleep"; "cook"; "cook"] |};
    {| xTrain := [2; 0]%Z;
       yTrains := <[0 := ["cook"; "walk"]]> (<[1 := ["cook"; "walk"]]> ∅);
       xTest := [0; 2]%Z; yTest := ["walk"; "cook"] |} ].

(** A fold whose test labels include one the dictionary does not hold. *)
Definition stray_fold : Fold :=
  {| xTrain := [0; 1]%Z; yTrains := <[0 := ["walk"; "nap"]]> ∅;
     xTest := [1]%Z; yTest := ["nap"] |}.

(** The bundles of the folds at a noise level (none if a fold lacks it). *)
Definition parameters (noise_level : nat) : list Args :=
  match experiment_parameters folds noise_level labels_dict with
  | inr args_list => args_list
  | inl _ => []
  end.

(** The pools of a generation method, as [__main__] asks for them: the run
    from an empty store, the bundles as the generation leaves them, the
    pools, and the store that holds them. *)
Definition generation (noise_level : nat) (gen : GenMethod)
    : list Call * list (list Estimator) * Res (list Args * list nat) :=
  experiment_generation (parameters noise_level) gen None [].

Definition bundles (noise_level : nat) (gen : GenMethod) : list Args :=
  match (generation noise_level gen).2 with
  | inr generated => generated.1
  | inl _ => []
  end.

Definition pools (noise_level : nat) (gen : GenMethod) : list nat :=
  match (generation noise_level gen).2 with
  | inr generated => generated.2
  | inl _ => []
  end.

Definition store (noise_level : nat) (gen : GenMethod) : list (list Estimator) :=
  (generation noise_level gen).1.2.

(** One grid cell on the first dataset: the evaluation of a selection method
    on the pools of a generation method. *)
Definition cell (noise_level : nat) (gen : GenMethod) (sel : Method)
    : list Call * list (list Estimator) * Res (list FoldResult) :=
  experiment_selection (bundles noise_level gen) (pools noise_level gen) 0 gen sel
    noise_level (store noise_level gen).

Definition results (noise_level : nat) (gen : GenMethod) (sel : Method)
    : list FoldResult :=
  match (cell noise_level gen sel).2 with
  | inr rs => rs
  | inl _ => []
  end.

(** The completed bundles of a cell. *)
Definition jobs (noise_level : nat) (gen : GenMethod) (sel : Method) : list Args :=
  match make_jobs 0 (bundles noise_level gen) (pools noise_level gen) 0 gen sel
          noise_level with
  | inr js => js
  | inl _ => []
  end.

Definition no_args : Args :=
  {| X_train := []; y_train := []; X_test := []; y_test := [];
     gen_method := None; imb_method := None; pool_clf := None;
     fold_name := None; noise := None; ds_method := None; params_rf := None |}.

Definition job (noise_level : nat) (gen : GenMethod) (sel : Method) (f : nat) : Args :=
  nth f (jobs noise_level gen sel) no_args.

(** A result whose fold matrix has four classes, one more than
    [activities]. *)
Definition wide_results : list FoldResult :=
  [ {| res_fold_name := "Fold_1";
       res_conf_matrix :=
         confusion_matrix_score [Some 0; Some 1; Some 2; Some 3]%Z
                                [Some 0; Some 1; Some 2; Some 3]%Z;
       res_metrics := [];
       res_predictions := [Some 0; Some 1; Some 2; Some 3]%Z |} ].

(** The features and labels given to the [predict] calls among [calls]. *)
Definition predict_calls (calls : list Call) : list (list Z * option (list Label)) :=
  omap (λ c, match c with
             | call_predict _ X y => Some (X, y)
             | _ => None
             end) calls.

End Demo.

(** * Properties

    ** Frames *)

(** The row assignment on a frame with distinct column labels, the
    embedding loop, and the stack-and-sum of canonical frames. *)

Section frames.
Import pd.

Lemma get_loc_from_absent {A} `{EqDecision A} (c : A) (l : list A) (o : nat) :
  c ∉ l → get_loc_from c l o = [].
Proof.
  revert o. induction l as [|c' l IH]; intros o Hc; simpl; [done|].
  apply not_elem_of_cons in Hc as [Hne Hc].
  rewrite decide_False by congruence. by apply IH.
Qed.

Lemma get_loc_from_NoDup {A} `{EqDecision A} (c : A) (l : list A) (o j : nat) :
  NoDup l → l !! j = Some c → get_loc_from c l o = [o + j].
Proof.
  revert o j. induction l as [|c' l IH]; intros o j Hnd Hj; [done|].
  apply NoDup_cons in Hnd as [Hc' Hnd]. destruct j as [|j]; simpl in *.
  - simplify_eq. rewrite decide_True by done.
    rewrite get_loc_from_absent by done. f_equal. lia.
  - rewrite decide_False.
    + rewrite (IH (S o) j) by done. f_equal. lia.
    + intros ->. apply Hc'. by eapply list_elem_of_lookup_2.
Qed.

Lemma get_indexer_for_slice (l : list string) (k o : nat) :
  NoDup l → o + k ≤ length l →
  get_indexer_for l (take k (drop o l)) = inr (seq o k).
Proof.
  intros Hnd. revert o. induction k as [|k IH]; intros o Hlen; [done|].
  destruct (lookup_lt_is_Some_2 l o) as [c Hc]; [lia|].
  rewrite (drop_S _ _ _ Hc). simpl.
  rewrite (get_loc_from_NoDup c l 0 o) by done. simpl.
  rewrite IH by lia. done.
Qed.

Lemma get_indexer_for_take (l : list string) (k : nat) :
  NoDup l → k ≤ length l → get_indexer_for l (take k l) = inr (seq 0 k).
Proof. intros. by apply (get_indexer_for_slice l k 0). Qed.

Lemma set_cells_seq (row : list (option Z)) (vals : list Z) (o : nat) :
  o + length vals ≤ length row →
  set_cells row (seq o (length vals)) vals
  = take o row ++ (Some <$> vals) ++ drop (o + length vals) row.
Proof.
  revert row o. induction vals as [|v vals IH]; intros row o Hlen; simpl in *.
  - by rewrite Nat.add_0_r, take_drop.
  - rewrite IH by (rewrite length_insert; lia).
    rewrite (take_S_r _ _ (Some v)).
    2:{ apply list_lookup_insert_eq. lia. }
    rewrite take_insert_ge by lia.
    rewrite drop_insert_lt by lia.
    rewrite <- app_assoc. simpl. do 3 f_equal. f_equal. lia.
Qed.

Lemma get_loc_from_seq (n i : nat) : i < n → get_loc_from i (seq 0 n) 0 = [i].
Proof.
  intros Hi. rewrite (get_loc_from_NoDup i (seq 0 n) 0 i); [done|apply NoDup_seq|].
  by apply lookup_seq_lt.
Qed.

Lemma loc_setitem_row (acts : list string) (above rest : list (list (option Z)))
    (row : list Z) :
  NoDup acts → length row ≤ length acts →
  length above + S (length rest) = length acts →
  loc_setitem
    (mkDataFrame (seq 0 (length acts)) acts
       (above ++ replicate (length acts) (Some 0%Z) :: rest))
    (length above) (take (length row) acts) row
  = inr (mkDataFrame (seq 0 (length acts)) acts
           (above ++ pad (length acts) row :: rest)).
Proof.
  intros Hnd Hrow Hlen. unfold loc_setitem. simpl.
  rewrite get_indexer_for_take by done. simpl.
  rewrite decide_True by (by rewrite length_seq).
  rewrite get_loc_from_seq by lia. simpl. do 2 f_equal.
  rewrite alter_app_r_alt by lia. rewrite Nat.sub_diag. simpl. do 2 f_equal.
  rewrite set_cells_seq by (rewrite length_replicate; lia). simpl.
  unfold pad. f_equal. by rewrite drop_replicate.
Qed.

Lemma embed_rows_pad (acts : list string) (above : list (list (option Z))) (m : nat)
    (rows : Matrix) :
  NoDup acts → length above + m = length acts → length rows ≤ m →
  Forall (λ row, length row ≤ length acts) rows →
  embed_rows acts
    (mkDataFrame (seq 0 (length acts)) acts
       (above ++ replicate m (replicate (length acts) (Some 0%Z))))
    (length above) rows
  = inr (mkDataFrame (seq 0 (length acts)) acts
           (above ++ (pad (length acts) <$> rows)
              ++ replicate (m - length rows) (replicate (length acts) (Some 0%Z)))).
Proof.
  intros Hnd. revert above m.
  induction rows as [|row rows IH]; intros above m Hlen Hm Hrows; simpl.
  - by rewrite Nat.sub_0_r.
  - apply Forall_cons in Hrows as [Hrow Hrows]. simpl in Hm.
    destruct m as [|m]; [lia|]. simpl.
    rewrite loc_setitem_row by (rewrite ?length_replicate; done || lia). simpl.
    specialize (IH (above ++ [pad (length acts) row]) m).
    rewrite length_app in IH. simpl in IH. rewrite Nat.add_1_r in IH.
    rewrite <- !app_assoc in IH. simpl in IH. apply IH; [lia|lia|done].
Qed.

Lemma embed_fits (acts : list string) (cm : Matrix) :
  NoDup acts → length cm ≤ length acts →
  Forall (λ row, length row ≤ length acts) cm →
  embed acts cm = inr (embedded acts cm).
Proof.
  intros Hnd Hlen Hrows. unfold embed, zeros, embedded.
  rewrite length_seq.
  by apply (embed_rows_pad acts [] (length acts) cm).
Qed.

Lemma embed_too_wide (acts : list string) (cm : Matrix) (k : nat) :
  NoDup acts → square k cm → length acts < k → embed acts cm = inl ValueError.
Proof.
  intros Hnd [Hlen Hrows] Hk. destruct cm as [|row cm]; simpl in *; [lia|].
  apply Forall_cons in Hrows as [Hrow _].
  unfold embed. simpl. unfold loc_setitem. simpl.
  rewrite take_ge by lia.
  rewrite <- (take_ge acts (length acts)) at 2 by lia.
  rewrite get_indexer_for_take by done. simpl.
  rewrite decide_False; [done|]. rewrite length_seq. lia.
Qed.

Lemma top_left_embedded (acts : list string) (cm : Matrix) (k : nat) :
  square k cm → top_left k (values (embedded acts cm)) = cells cm.
Proof.
  intros [Hlen Hrows]. unfold top_left, embedded, cells. simpl.
  rewrite fmap_app, take_app_le by (rewrite !length_fmap; lia).
  rewrite take_ge by (rewrite !length_fmap; lia).
  rewrite <- list_fmap_compose. apply Forall_fmap_ext_1.
  eapply Forall_impl; [exact Hrows|]. intros row Hrow. simpl in *. unfold pad.
  rewrite take_app_le by (rewrite length_fmap; lia).
  rewrite take_ge by (rewrite length_fmap; lia). done.
Qed.

Lemma matrix_eq_entries (n : nat) (A B : Matrix) :
  square n A → square n B →
  (∀ k j, k < n → j < n → mentry A k j = mentry B k j) → A = B.
Proof.
  intros [HA HAr] [HB HBr] Hent.
  apply (list_eq_same_length _ _ n); [done..|].
  intros k ra rb Hk Hra Hrb.
  apply (list_eq_same_length _ _ n).
  - by apply (Forall_lookup_1 _ _ _ _ HBr Hrb).
  - by apply (Forall_lookup_1 _ _ _ _ HAr Hra).
  - intros j x y Hj Hx Hy. specialize (Hent k j Hk Hj).
    unfold mentry in Hent. rewrite Hra, Hrb in Hent. simpl in Hent.
    by rewrite Hx, Hy in Hent.
Qed.

Lemma sumZ_cons (x : Z) (l : list Z) : sumZ (x :: l) = (x + sumZ l)%Z.
Proof. done. Qed.

Lemma sumZ_app (l1 l2 : list Z) : sumZ (l1 ++ l2) = (sumZ l1 + sumZ l2)%Z.
Proof. induction l1 as [|x l1 IH]; simpl; [done|]. rewrite IH. lia. Qed.

Lemma square_zero (n : nat) : square n (zero_matrix n).
Proof.
  split; [apply length_replicate|].
  apply Forall_replicate. apply length_replicate.
Qed.

Lemma mentry_zero (n k j : nat) : mentry (zero_matrix n) k j = 0%Z.
Proof.
  unfold mentry, zero_matrix.
  destruct (replicate n (replicate n 0%Z) !! k) as [row|] eqn:Hk; [|done].
  apply lookup_replicate in Hk as [-> _]. simpl.
  destruct (replicate n 0%Z !! j) as [x|] eqn:Hj; [|done].
  by apply lookup_replicate in Hj as [-> _].
Qed.

Lemma square_add (n : nat) (A B : Matrix) :
  square n A → square n B → square n (matrix_add A B).
Proof.
  intros [HA HAr] [HB HBr]. unfold matrix_add. split.
  - rewrite length_zip_with. lia.
  - apply Forall_lookup_2. intros k row Hrow.
    apply lookup_zip_with_Some in Hrow as (ra & rb & -> & Hra & Hrb).
    rewrite length_zip_with.
    rewrite (Forall_lookup_1 _ _ _ _ HAr Hra), (Forall_lookup_1 _ _ _ _ HBr Hrb). lia.
Qed.

Lemma mentry_add (n : nat) (A B : Matrix) (k j : nat) :
  square n A → square n B → k < n → j < n →
  mentry (matrix_add A B) k j = (mentry A k j + mentry B k j)%Z.
Proof.
  intros [HA HAr] [HB HBr] Hk Hj. unfold mentry, matrix_add.
  destruct (lookup_lt_is_Some_2 A k) as [ra Hra]; [lia|].
  destruct (lookup_lt_is_Some_2 B k) as [rb Hrb]; [lia|].
  pose proof (Forall_lookup_1 _ _ _ _ HAr Hra) as Hla.
  pose proof (Forall_lookup_1 _ _ _ _ HBr Hrb) as Hlb. simpl in *.
  destruct (lookup_lt_is_Some_2 ra j) as [x Hx]; [lia|].
  destruct (lookup_lt_is_Some_2 rb j) as [y Hy]; [lia|].
  rewrite lookup_zip_with, Hra, Hrb. simpl.
  rewrite lookup_zip_with, Hx, Hy. done.
Qed.

Lemma square_elementwise_sum (n : nat) (ms : list Matrix) :
  Forall (square n) ms → square n (elementwise_sum n ms).
Proof.
  induction 1 as [|m ms Hm Hms IH]; simpl; [apply square_zero|].
  by apply square_add.
Qed.

Lemma mentry_elementwise_sum (n : nat) (ms : list Matrix) (k j : nat) :
  Forall (square n) ms → k < n → j < n →
  mentry (elementwise_sum n ms) k j = sumZ ((λ m, mentry m k j) <$> ms).
Proof.
  intros Hms Hk Hj. induction Hms as [|m ms Hm Hms IH]; simpl.
  - apply mentry_zero.
  - rewrite (mentry_add n) by (done || by apply square_elementwise_sum).
    by rewrite IH.
Qed.

Lemma Sorted_le_seq (o n : nat) : Sorted (≤) (seq o n).
Proof.
  revert o. induction n as [|n IH]; intros o; simpl; [constructor|].
  constructor; [apply IH|]. destruct n; simpl; constructor. lia.
Qed.

Lemma sorted_keys (n : nat) (dfs : list DataFrame) :
  dfs ≠ [] → Forall (λ df, index df = seq 0 n) dfs →
  merge_sort (≤) (remove_dups (dfs ≫= index)) = seq 0 n.
Proof.
  intros Hne Hidx.
  apply (Sorted_unique (≤)).
  - apply (Sorted_merge_sort (≤)).
  - apply Sorted_le_seq.
  - rewrite merge_sort_Permutation.
    apply NoDup_Permutation; [apply NoDup_remove_dups|apply NoDup_seq|].
    intros x. rewrite elem_of_remove_dups, list_elem_of_bind. split.
    + intros (df & Hx & Hdf).
      rewrite Forall_forall in Hidx. by rewrite <- (Hidx df Hdf).
    + intros Hx. destruct dfs as [|df dfs]; [done|].
      exists df. apply Forall_cons in Hidx as [-> _]. split; [done|left].
Qed.

Lemma rows_at_label (k o : nat) (vs : list (list (option Z))) :
  snd <$> filter (λ p, p.1 = k) (zip (seq o (length vs)) vs)
  = if decide (o ≤ k) then option_list (vs !! (k - o)) else [].
Proof.
  revert o. induction vs as [|v vs IH]; intros o; simpl.
  - by destruct (decide (o ≤ k)).
  - rewrite filter_cons. simpl.
    destruct (decide (o = k)) as [->|Hne]; rewrite ?fmap_cons, IH; simpl.
    + repeat case_decide; try lia. by rewrite Nat.sub_diag.
    + repeat case_decide; try lia; [|done].
      by replace (k - o) with (S (k - S o)) by lia.
Qed.

Lemma rows_with_label_concat (n k : nat) (cols : list string) (dfs : list DataFrame) :
  Forall (canonical n) dfs →
  rows_with_label k (mkDataFrame (dfs ≫= index) cols (dfs ≫= values))
  = dfs ≫= (λ df, option_list (values df !! k)).
Proof.
  unfold rows_with_label. simpl.
  induction 1 as [|df dfs (Hidx & _ & Hlen & _) Hdfs IH]; [done|].
  rewrite !bind_cons. rewrite zip_with_app by (rewrite Hidx, length_seq; lia).
  rewrite filter_app, fmap_app, IH. f_equal.
  rewrite Hidx, <- Hlen, rows_at_label.
  rewrite decide_True by lia. by rewrite Nat.sub_0_r.
Qed.

Lemma sum_rows_entries (k j : nat) (dfs : list DataFrame) :
  sumZ ((λ row : list (option Z), nan_to_zero (row !! j))
          <$> (dfs ≫= (λ df, option_list (values df !! k))))
  = sumZ ((λ df, fentry df k j) <$> dfs).
Proof.
  induction dfs as [|df dfs IH]; [done|].
  rewrite bind_cons, fmap_app, sumZ_app, IH. simpl. f_equal.
  unfold fentry. destruct (values df !! k) as [row|]; simpl; [lia|done].
Qed.

Lemma mentry_to_matrix (df : DataFrame) (k j : nat) :
  mentry (to_matrix df) k j = fentry df k j.
Proof.
  unfold mentry, fentry, to_matrix. rewrite list_lookup_fmap.
  destruct (values df !! k) as [row|]; simpl; [|done].
  rewrite list_lookup_fmap. by destruct (row !! j).
Qed.

Lemma square_to_matrix (n : nat) (df : DataFrame) :
  canonical n df → square n (to_matrix df).
Proof.
  intros (_ & _ & Hlen & Hrows). unfold to_matrix. split.
  - by rewrite length_fmap.
  - apply Forall_fmap. eapply Forall_impl; [exact Hrows|].
    intros row Hrow. simpl in *. by rewrite length_fmap.
Qed.

(** Stacking canonical frames and summing by row label is the element-wise
    sum of their matrices. *)
Lemma groupby_concat_sum (n : nat) (dfs : list DataFrame) (all_rows : DataFrame) :
  Forall (canonical n) dfs → concat dfs = inr all_rows →
  index (groupby_level0_sum all_rows) = seq 0 n ∧
  values (groupby_level0_sum all_rows)
  = cells (elementwise_sum n (to_matrix <$> dfs)).
Proof.
  intros Hdfs Hcat. destruct dfs as [|df dfs']; [done|].
  assert (all_rows = mkDataFrame ((df :: dfs') ≫= index) (columns df)
                       ((df :: dfs') ≫= values)) as ->.
  { unfold concat in Hcat. congruence. }
  clear Hcat.
  assert (Hne : df :: dfs' ≠ []) by done.
  pose proof (Forall_inv Hdfs) as (_ & Hcols & _).
  revert Hne Hdfs. generalize (df :: dfs'). intros dfs Hne Hdfs.
  unfold groupby_level0_sum. cbn [index columns values].
  assert (Hkeys : merge_sort (≤) (remove_dups (dfs ≫= index)) = seq 0 n).
  { apply sorted_keys; [done|]. eapply Forall_impl; [exact Hdfs|]. by intros ? [? _]. }
  rewrite Hkeys, Hcols. split; [done|].
  set (E := elementwise_sum n (to_matrix <$> dfs)).
  assert (HE : square n E).
  { apply square_elementwise_sum. apply Forall_fmap.
    eapply Forall_impl; [exact Hdfs|]. intros ?. apply square_to_matrix. }
  assert (E = (λ k, (λ j, mentry E k j) <$> seq 0 n) <$> seq 0 n) as ->.
  { apply (matrix_eq_entries n); [done| |].
    - split; [by rewrite length_fmap, length_seq|].
      apply Forall_fmap, Forall_forall. intros k _. simpl.
      by rewrite length_fmap, length_seq.
    - intros k j Hk Hj. unfold mentry at 2.
      rewrite list_lookup_fmap, lookup_seq_lt by done. simpl.
      rewrite list_lookup_fmap, lookup_seq_lt by done. done. }
  unfold cells. rewrite <- list_fmap_compose.
  apply list_fmap_ext. intros i k Hk. apply lookup_seq in Hk as [-> Hk]. simpl.
  rewrite <- list_fmap_compose.
  apply list_fmap_ext. intros i' j Hj. apply lookup_seq in Hj as [-> Hj]. simpl.
  f_equal. subst E.
  rewrite (rows_with_label_concat n) by done.
  rewrite sum_rows_entries.
  rewrite mentry_elementwise_sum; [|by apply Forall_fmap; eapply Forall_impl;
    [exact Hdfs|]; intros ?; apply square_to_matrix|done..].
  rewrite <- list_fmap_compose. f_equal.
  apply list_fmap_ext. intros ? d _. simpl. by rewrite mentry_to_matrix.
Qed.

Lemma canonical_embedded (acts : list string) (cm : Matrix) :
  length cm ≤ length acts → Forall (λ row, length row ≤ length acts) cm →
  canonical (length acts) (embedded acts cm).
Proof.
  intros Hlen Hrows. unfold canonical, embedded. simpl.
  repeat split.
  - rewrite length_app, length_fmap, length_replicate. lia.
  - apply Forall_app. split.
    + apply Forall_fmap. eapply Forall_impl; [exact Hrows|].
      intros row Hrow. simpl in *. unfold pad.
      rewrite length_app, length_fmap, length_replicate. lia.
    + apply Forall_replicate. apply length_replicate.
Qed.

Lemma sumZ_replicate_zero (n : nat) : sumZ (replicate n 0%Z) = 0%Z.
Proof. induction n as [|n IH]; simpl; [done|]. by rewrite IH. Qed.

Lemma sumZ_zip_with_add (a b : list Z) :
  length a = length b → sumZ (zip_with Z.add a b) = (sumZ a + sumZ b)%Z.
Proof.
  revert b. induction a as [|x a IH]; intros [|y b] Hlen; simpl in *; try done.
  rewrite IH by lia. lia.
Qed.

Lemma matrix_total_zero (n : nat) : matrix_total (zero_matrix n) = 0%Z.
Proof.
  unfold matrix_total, zero_matrix. rewrite fmap_replicate, sumZ_replicate_zero.
  apply sumZ_replicate_zero.
Qed.

Lemma matrix_total_add_rows (A B : Matrix) :
  Forall2 (λ ra rb, length ra = length rb) A B →
  matrix_total (matrix_add A B) = (matrix_total A + matrix_total B)%Z.
Proof.
  unfold matrix_total, matrix_add.
  induction 1 as [|ra rb A B Hr HAB IH]; [done|].
  cbn [zip_with]. rewrite !fmap_cons, !sumZ_cons.
  rewrite sumZ_zip_with_add, IH by done. lia.
Qed.

Lemma matrix_total_add (n : nat) (A B : Matrix) :
  square n A → square n B →
  matrix_total (matrix_add A B) = (matrix_total A + matrix_total B)%Z.
Proof.
  intros [HA HAr] [HB HBr]. apply matrix_total_add_rows.
  apply Forall2_same_length_lookup_2; [lia|].
  intros k ra rb Hra Hrb.
  rewrite (Forall_lookup_1 _ _ _ _ HAr Hra), (Forall_lookup_1 _ _ _ _ HBr Hrb). done.
Qed.

Lemma matrix_total_elementwise_sum (n : nat) (ms : list Matrix) :
  Forall (square n) ms →
  matrix_total (elementwise_sum n ms) = sumZ (matrix_total <$> ms).
Proof.
  induction 1 as [|m ms Hm Hms IH]; simpl; [apply matrix_total_zero|].
  rewrite (matrix_total_add n), IH by (done || by apply square_elementwise_sum).
  done.
Qed.

Lemma to_matrix_cells (idx : list nat) (cols : list string) (m : Matrix) :
  to_matrix (mkDataFrame idx cols (cells m)) = m.
Proof.
  unfold to_matrix, cells. simpl. rewrite <- list_fmap_compose.
  rewrite <- (list_fmap_id m) at 2. apply list_fmap_ext. intros _ row _. simpl.
  rewrite <- list_fmap_compose. rewrite <- (list_fmap_id row) at 2.
  by apply list_fmap_ext.
Qed.

Lemma matrix_total_embedded (acts : list string) (cm : Matrix) :
  matrix_total (to_matrix (embedded acts cm)) = matrix_total cm.
Proof.
  unfold matrix_total, to_matrix, embedded. cbn [values].
  rewrite !fmap_app, sumZ_app, !fmap_replicate.
  cbn [nan_to_zero].
  rewrite !sumZ_replicate_zero, Z.add_0_r. f_equal.
  rewrite <- !list_fmap_compose. apply list_fmap_ext. intros _ row _.
  unfold pad, compose. rewrite fmap_app, sumZ_app, fmap_replicate. cbn [nan_to_zero].
  rewrite sumZ_replicate_zero, Z.add_0_r. f_equal.
  rewrite <- list_fmap_compose. rewrite <- (list_fmap_id row) at 2.
  by apply list_fmap_ext.
Qed.
End frames.

(** ** The confusion matrix of a fold *)

Section confusion.

Lemma sumZ_fmap_add {A} (f g : A → Z) (l : list A) :
  sumZ ((λ a, f a + g a)%Z <$> l) = (sumZ (f <$> l) + sumZ (g <$> l))%Z.
Proof. induction l as [|a l IH]; [done|]. rewrite !fmap_cons, !sumZ_cons, IH. lia. Qed.

Lemma sumZ_fmap_zero {A} (f : A → Z) (l : list A) :
  (∀ a, a ∈ l → f a = 0%Z) → sumZ (f <$> l) = 0%Z.
Proof.
  induction l as [|a l IH]; intros Hf; [done|].
  rewrite fmap_cons, sumZ_cons, Hf, IH; [done| |left].
  intros b Hb. apply Hf. by right.
Qed.

Lemma sumZ_indicator {A} `{EqDecision A} (x : A) (l : list A) :
  NoDup l → x ∈ l →
  sumZ ((λ a, if decide (a = x) then 1 else 0)%Z <$> l) = 1%Z.
Proof.
  induction 1 as [|a l Ha Hl IH]; intros Hx; [by apply elem_of_nil in Hx|].
  rewrite fmap_cons, sumZ_cons. destruct (decide (a = x)) as [->|Hne].
  - rewrite sumZ_fmap_zero; [done|]. intros b Hb.
    rewrite decide_False; [done|]. by intros ->.
  - apply elem_of_cons in Hx as [->|Hx]; [done|]. by rewrite IH.
Qed.

Lemma count_pairs_cons (a b : option Z) (p : option Z * option Z)
    (ps : list (option Z * option Z)) :
  count_pairs a b (p :: ps)
  = ((if decide (p = (a, b)) then 1 else 0) + count_pairs a b ps)%Z.
Proof.
  unfold count_pairs. rewrite filter_cons.
  destruct (decide (p = (a, b))); simpl; lia.
Qed.

Lemma sum_count_pairs (L : list (option Z)) (pairs : list (option Z * option Z)) :
  NoDup L → Forall (λ p, p.1 ∈ L ∧ p.2 ∈ L) pairs →
  sumZ ((λ a, sumZ ((λ b, count_pairs a b pairs) <$> L)) <$> L)
  = Z.of_nat (length pairs).
Proof.
  intros HL. induction 1 as [|[pa pb] ps [Hpa Hpb] Hps IH]; simpl in *.
  - apply sumZ_fmap_zero. intros a _. by apply sumZ_fmap_zero.
  - erewrite list_fmap_ext; last first.
    { intros _ a _. erewrite list_fmap_ext; last first.
      { intros _ b _. apply count_pairs_cons. }
      apply sumZ_fmap_add. }
    rewrite sumZ_fmap_add, IH.
    erewrite (list_fmap_ext _ (λ a, if decide (a = pa) then 1 else 0)%Z); last first.
    { intros _ a _. simpl. destruct (decide (a = pa)) as [->|Hne].
      - erewrite list_fmap_ext; [by apply (sumZ_indicator pb)|].
        intros _ b _. simpl. destruct (decide (b = pb)) as [->|Hne].
        + by rewrite decide_True.
        + rewrite decide_False; [done|]. congruence.
      - apply sumZ_fmap_zero. intros b _. rewrite decide_False; [done|]. congruence. }
    rewrite sumZ_indicator by done. lia.
Qed.

Lemma NoDup_observed_labels (y p : list (option Z)) : NoDup (observed_labels y p).
Proof.
  unfold observed_labels. rewrite merge_sort_Permutation. apply NoDup_remove_dups.
Qed.

Lemma elem_of_observed_labels (y p : list (option Z)) (a : option Z) :
  a ∈ observed_labels y p ↔ a ∈ y ∨ a ∈ p.
Proof.
  unfold observed_labels.
  by rewrite merge_sort_Permutation, elem_of_remove_dups, elem_of_app.
Qed.

Lemma square_confusion_matrix (y p : list (option Z)) :
  square (length (observed_labels y p)) (confusion_matrix_score y p).
Proof.
  unfold confusion_matrix_score. split; [by rewrite length_fmap|].
  apply Forall_fmap, Forall_forall. intros a _. simpl. by rewrite length_fmap.
Qed.

Lemma matrix_total_confusion (y p : list (option Z)) :
  matrix_total (confusion_matrix_score y p) = Z.of_nat (length (zip y p)).
Proof.
  unfold matrix_total, confusion_matrix_score.
  rewrite <- list_fmap_compose.
  apply (sum_count_pairs _ _ (NoDup_observed_labels y p)).
  apply Forall_forall. intros [a b] Hab.
  rewrite !elem_of_observed_labels. simpl. split.
  - left. by eapply elem_of_zip_l.
  - right. by eapply elem_of_zip_r.
Qed.
End confusion.

(** ** The driver *)

(** Inversion of the monad's operations, the calls a computation can make,
    and the runs of the evaluation steps. *)

Section monad.
Context `{Dom : Domain} `{Lib : !Library}.

Lemma bind_inr_inv {A B} (m : M A) (k : A → M B) σ c σ' b :
  bind m k σ = (c, σ', inr b) →
  ∃ c1 σ1 a c2, m σ = (c1, σ1, inr a) ∧ k a σ1 = (c2, σ', inr b) ∧ c = c1 ++ c2.
Proof.
  unfold bind. destruct (m σ) as [[c1 σ1] [e|a]]; [done|].
  destruct (k a σ1) as [[c2 σ2] r] eqn:Hk. intros [= <- <- ->].
  by exists c1, σ1, a, c2.
Qed.

Lemma bind_inr {A B} (m : M A) (k : A → M B) σ c1 σ1 a :
  m σ = (c1, σ1, inr a) →
  bind m k σ = ((c1 ++ (k a σ1).1.1), (k a σ1).1.2, (k a σ1).2).
Proof. unfold bind. intros ->. by destruct (k a σ1) as [[c2 σ2] r]. Qed.

Lemma bind_inl {A B} (m : M A) (k : A → M B) σ c1 σ1 e :
  m σ = (c1, σ1, inl e) → bind m k σ = (c1, σ1, inl e).
Proof. unfold bind. by intros ->. Qed.

Lemma getitem_inr {A} key (v : option A) σ c σ' a :
  getitem key v σ = (c, σ', inr a) → v = Some a ∧ c = [] ∧ σ' = σ.
Proof. destruct v; simpl; unfold ret, raise; intros [=]; by subst. Qed.

Lemma ext_inr {A} call (r : Res A) σ c σ' a :
  ext call r σ = (c, σ', inr a) → r = inr a ∧ c = [call] ∧ σ' = σ.
Proof. unfold ext. intros [=]; by subst. Qed.

Lemma ret_inr {A} (x : A) σ c σ' a :
  ret x σ = (c, σ', inr a) → a = x ∧ c = [] ∧ σ' = σ.
Proof. unfold ret. intros [=]; by subst. Qed.

(** map_list *)

Lemma map_list_inr_Forall2 {A B} (f : A → M B) (P : A → B → Prop) l :
  (∀ x σ c σ' b, f x σ = (c, σ', inr b) → P x b) →
  ∀ σ c σ' bs, map_list f l σ = (c, σ', inr bs) → Forall2 P l bs.
Proof.
  intros HP. induction l as [|x l IH]; intros σ c σ' bs Hrun; simpl in Hrun.
  - apply ret_inr in Hrun as (-> & _). constructor.
  - apply bind_inr_inv in Hrun as (c1 & σ1 & b & c2 & Hx & Hrun & ->).
    apply bind_inr_inv in Hrun as (c3 & σ3 & bs' & c4 & Hl & Hrun & ->).
    apply ret_inr in Hrun as (-> & _). constructor; eauto.
Qed.

Lemma map_list_raise {A B} (f : A → M B) before x after σ c1 σ1 bs c2 σ2 e :
  map_list f before σ = (c1, σ1, inr bs) →
  f x σ1 = (c2, σ2, inl e) →
  map_list f (before ++ x :: after) σ = (c1 ++ c2, σ2, inl e).
Proof.
  revert σ c1 bs. induction before as [|y before IH]; intros σ c1 bs Hb Hx; simpl in *.
  - apply ret_inr in Hb as (_ & -> & ->). simpl. by apply bind_inl.
  - apply bind_inr_inv in Hb as (c3 & σ3 & b & c4 & Hy & Hb & ->).
    apply bind_inr_inv in Hb as (c5 & σ5 & bs' & c6 & Hb & Hr & ->).
    apply ret_inr in Hr as (_ & -> & ->).
    rewrite (bind_inr _ _ _ _ _ _ Hy).
    erewrite (bind_inl (map_list f (before ++ x :: after))); [|by eapply IH].
    simpl. by rewrite app_nil_r, app_assoc.
Qed.

(** The calls of a computation *)

Lemma emits_ret {A} P (a : A) : emits P (ret a).
Proof. intros σ. constructor. Qed.

Lemma emits_raise {A} P e : emits P (raise (A:=A) e).
Proof. intros σ. constructor. Qed.

Lemma emits_ext {A} (P : Call → Prop) c (r : Res A) : P c → emits P (ext c r).
Proof. intros Hc σ. by repeat constructor. Qed.

Lemma emits_bind {A B} P (m : M A) (k : A → M B) :
  emits P m → (∀ a, emits P (k a)) → emits P (bind m k).
Proof.
  intros Hm Hk σ. specialize (Hm σ). unfold calls_of, bind in *.
  destruct (m σ) as [[c1 σ1] [e|a]]; [done|]. specialize (Hk a σ1).
  unfold calls_of in Hk. destruct (k a σ1) as [[c2 σ2] r]. simpl in *.
  by apply Forall_app.
Qed.

Lemma emits_getitem_bind {A B} P key (v : option A) (k : A → M B) :
  (∀ a, v = Some a → emits P (k a)) → emits P (bind (getitem key v) k).
Proof.
  intros Hk σ. destruct v as [a|]; unfold calls_of, bind, getitem, ret, raise.
  - specialize (Hk a eq_refl σ). unfold calls_of in Hk.
    by destruct (k a σ) as [[c2 σ2] r].
  - constructor.
Qed.

Lemma emits_new_list P members : emits P (new_list members).
Proof. intros σ. constructor. Qed.

Lemma emits_list_append P l x : emits P (list_append l x).
Proof. intros σ. constructor. Qed.

Lemma emits_list_members P l : emits P (list_members l).
Proof. intros σ. unfold calls_of, list_members. destruct (σ !! l); constructor. Qed.

Lemma emits_for_each {A} P (l : list A) body :
  (∀ x, emits P (body x)) → emits P (for_each l body).
Proof.
  intros Hbody. induction l as [|x l IH]; simpl; [apply emits_ret|].
  apply emits_bind; [apply Hbody|]. by intros _.
Qed.

Lemma emits_map_list {A B} P (f : A → M B) (l : list A) :
  (∀ x, emits P (f x)) → emits P (map_list f l).
Proof.
  intros Hf. induction l as [|x l IH]; simpl; [apply emits_ret|].
  apply emits_bind; [apply Hf|]. intros b.
  apply emits_bind; [apply IH|]. intros bs. apply emits_ret.
Qed.

(** The calls of the evaluation steps *)

Lemma emits_process_metrics P y p :
  (∀ name, P (call_metric name y p)) → emits P (process_metrics y p).
Proof.
  intros HP. unfold process_metrics.
  repeat (apply emits_bind; [by apply emits_ext|intros ?]). apply emits_ret.
Qed.

Lemma emits_calibrate_pool P X y l :
  (∀ clf, P (call_CalibratedClassifierCV clf "prefit")) →
  (∀ clf, P (call_calibrated_fit clf "prefit" X y)) →
  emits P (calibrate_pool X y l).
Proof.
  intros Hinit Hfit. unfold calibrate_pool.
  apply emits_bind; [apply emits_new_list|intros cal].
  apply emits_bind; [apply emits_list_members|intros members].
  apply emits_bind; [|intros _; apply emits_ret].
  apply emits_for_each. intros clf.
  apply emits_bind; [by apply emits_ext|intros _].
  apply emits_bind; [by apply emits_ext|intros _].
  apply emits_list_append.
Qed.

Lemma predict_contract_other args c :
  (∀ e X y, c ≠ call_predict e X y) → predict_contract args c.
Proof. intros Hc e X y ->. by destruct (Hc e X y). Qed.

Lemma emits_process_selection_predict (args : Args) :
  emits (predict_contract args) (process_selection args).
Proof.
  unfold process_selection.
  apply emits_getitem_bind. intros pool Hpool.
  apply emits_getitem_bind. intros name Hname.
  apply emits_getitem_bind. intros gen Hgen.
  apply emits_getitem_bind. intros method Hmethod.
  apply emits_getitem_bind. intros n Hn.
  apply emits_bind.
  { case_decide as Hrf.
    - apply emits_bind; [by apply emits_ext, predict_contract_other|intros _].
      apply emits_bind; [by apply emits_ext, predict_contract_other|intros ens].
      apply emits_bind; [|intros _; apply emits_ret].
      apply emits_ext. intros e X y [= <- <- <-]. split; [done|].
      unfold predict_labels. rewrite decide_False; [done|]. rewrite Hmethod, Hrf. done.
    - apply emits_bind.
      + case_decide; [|apply emits_ret].
        apply emits_calibrate_pool; intros; by apply predict_contract_other.
      + intros l. apply emits_bind; [apply emits_list_members|intros members].
        by apply emits_ext, predict_contract_other. }
  intros ens. apply emits_bind.
  { destruct (decide (method = Oracle)) as [Horacle|Horacle];
      apply emits_ext; intros e X y [= <- <- <-]; (split; [done|]);
      unfold predict_labels.
    - by rewrite decide_True by congruence.
    - by rewrite decide_False by congruence. }
  intros predictions.
  apply emits_bind; [by apply emits_ext, predict_contract_other|intros cm].
  apply emits_bind; [|intros ?; apply emits_ret].
  apply emits_process_metrics. intros. by apply predict_contract_other.
Qed.

Lemma process_selection_inr (args : Args) σ c σ' r :
  process_selection args σ = (c, σ', inr r) →
  fold_name args = Some (res_fold_name r) ∧
  res_conf_matrix r = confusion_matrix_score (y_test args) (res_predictions r) ∧
  ∃ e, call_predict e (X_test args) (predict_labels args) ∈ c ∧
       predict e (X_test args) (predict_labels args) = inr (res_predictions r).
Proof.
  unfold process_selection. intros Hrun.
  apply bind_inr_inv in Hrun as (? & ? & pool & ? & Hpool & Hrun & ->).
  apply getitem_inr in Hpool as (Hpool & -> & ->).
  apply bind_inr_inv in Hrun as (? & ? & name & ? & Hname & Hrun & ->).
  apply getitem_inr in Hname as (Hname & -> & ->).
  apply bind_inr_inv in Hrun as (? & ? & gen & ? & Hgen & Hrun & ->).
  apply getitem_inr in Hgen as (Hgen & -> & ->).
  apply bind_inr_inv in Hrun as (? & ? & method & ? & Hmethod & Hrun & ->).
  apply getitem_inr in Hmethod as (Hmethod & -> & ->).
  apply bind_inr_inv in Hrun as (? & ? & n & ? & Hn & Hrun & ->).
  apply getitem_inr in Hn as (Hn & -> & ->).
  apply bind_inr_inv in Hrun as (cens & σ1 & ens & ? & Hens & Hrun & ->).
  apply bind_inr_inv in Hrun as (cpred & σ2 & predictions & ? & Hpred & Hrun & ->).
  apply bind_inr_inv in Hrun as (? & ? & cm & ? & Hcm & Hrun & ->).
  apply ext_inr in Hcm as ([= <-] & -> & ->).
  apply bind_inr_inv in Hrun as (? & ? & metrics & ? & Hmetrics & Hrun & ->).
  apply ret_inr in Hrun as (-> & -> & ->). simpl.
  split; [done|]. split; [done|]. exists ens.
  assert (ext (call_predict ens (X_test args) (predict_labels args))
              (predict ens (X_test args) (predict_labels args)) σ1
          = (cpred, σ2, inr predictions)) as Hp.
  { unfold predict_labels. rewrite Hmethod.
    destruct (decide (method = Oracle)) as [->|Hne].
    - by rewrite decide_True.
    - by rewrite decide_False by congruence. }
  apply ext_inr in Hp as (Hp & -> & ->). split; [|done].
  set_solver.
Qed.

(** The bundles of a cell *)

Lemma make_jobs_lookup f parameters pool_gen iteration gen sel noise_level jobs i job :
  make_jobs f parameters pool_gen iteration gen sel noise_level = inr jobs →
  jobs !! i = Some job →
  ∃ param pool n,
    parameters !! i = Some param ∧ pool_gen !! i = Some pool ∧
    params !! iteration ≫= (.!! (f + i)) = Some n ∧
    job = set_selection pool (f + i) noise_level sel gen n param.
Proof.
  revert f pool_gen jobs i.
  induction parameters as [|param parameters IH]; intros f [|pool pool_gen] jobs i Hjobs Hi;
    cbn [make_jobs] in Hjobs; simplify_eq; try done.

  destruct (params !! iteration ≫= (.!! f)) as [n|] eqn:Hn; [|done].
  destruct (make_jobs (S f) parameters pool_gen iteration gen sel noise_level)
    as [e|jobs'] eqn:Hrest; simpl in Hjobs; simplify_eq.
  destruct i as [|i]; simpl in Hi; simplify_eq.
  - exists param, pool, n. by rewrite Nat.add_0_r.
  - destruct (IH _ _ _ _ Hrest Hi) as (param' & pool' & n' & ? & ? & Hn' & ->).
    exists param', pool', n'. by replace (f + S i) with (S f + i) by lia.
Qed.

Lemma make_jobs_length f parameters pool_gen iteration gen sel noise_level jobs :
  make_jobs f parameters pool_gen iteration gen sel noise_level = inr jobs →
  length pool_gen = length parameters → length jobs = length parameters.
Proof.
  revert f pool_gen jobs.
  induction parameters as [|param parameters IH]; intros f [|pool pool_gen] jobs Hjobs Hlen;
    cbn [make_jobs length] in *; simplify_eq; try done.
  destruct (params !! iteration ≫= (.!! f)) as [n|]; [|done].
  destruct (make_jobs (S f) parameters pool_gen iteration gen sel noise_level)
    as [e|jobs'] eqn:Hrest; simpl in Hjobs; simplify_eq.
  simpl. f_equal. eapply IH; [done|lia].
Qed.

Lemma experiment_selection_inr parameters pool_gen iteration gen sel noise_level
    σ c σ' results :
  experiment_selection parameters pool_gen iteration gen sel noise_level σ
    = (c, σ', inr results) →
  ∃ jobs c',
    make_jobs 0 parameters pool_gen iteration gen sel noise_level = inr jobs ∧
    map_list process_selection jobs σ = (c', σ', inr results) ∧
    c = call_Pool 5 :: c' ++ [call_pool_close].
Proof.
  unfold experiment_selection. intros Hrun.
  apply bind_inr_inv in Hrun as (? & ? & [] & ? & Hpool & Hrun & ->).
  apply ext_inr in Hpool as (_ & -> & ->).
  apply bind_inr_inv in Hrun as (? & ? & jobs & ? & Hjobs & Hrun & ->).
  injection Hjobs as <- <- Hjobs.
  apply bind_inr_inv in Hrun as (c' & ? & rs & ? & Hmap & Hrun & ->).
  apply bind_inr_inv in Hrun as (? & ? & [] & ? & Hclose & Hrun & ->).
  apply ext_inr in Hclose as (_ & -> & ->).
  apply ret_inr in Hrun as (-> & -> & ->).
  exists jobs, c'. by rewrite app_nil_r.
Qed.

Lemma experiment_generation_raises parameters gen imb before param after
    σ c1 σ1 pools c2 σ2 e :
  parameters = before ++ param :: after →
  map_list process_generation (set_generation gen imb <$> before) σ = (c1, σ1, inr pools) →
  process_generation (set_generation gen imb param) σ1 = (c2, σ2, inl e) →
  experiment_generation parameters gen imb σ = (c1 ++ c2, σ2, inl e).
Proof.
  intros -> Hbefore Hparam. unfold experiment_generation.
  rewrite fmap_app, fmap_cons.
  erewrite bind_inl; [done|]. by eapply map_list_raise.
Qed.

Lemma emits_process_selection_no_pool_map args :
  emits not_pool_map (process_selection args).
Proof.
  unfold process_selection.
  do 5 (apply emits_getitem_bind; intros ? _).
  apply emits_bind.
  { case_decide.
    - repeat (apply emits_bind; [by apply emits_ext|intros ?]). apply emits_ret.
    - apply emits_bind.
      + case_decide; [|apply emits_ret]. by apply emits_calibrate_pool.
      + intros l. apply emits_bind; [apply emits_list_members|intros ?].
        by apply emits_ext. }
  intros ens. apply emits_bind; [by case_decide; apply emits_ext|intros ?].
  apply emits_bind; [by apply emits_ext|intros ?].
  apply emits_bind; [by apply emits_process_metrics|intros ?]. apply emits_ret.
Qed.

Lemma bind_getitem_Some {A B} key (a : A) (k : A → M B) σ :
  bind (getitem key (Some a)) k σ = k a σ.
Proof. unfold bind, getitem, ret. by destruct (k a σ) as [[c2 σ2] r]. Qed.

Ltac case_results :=
  repeat match goal with
  | |- context [match ?x with inl _ => _ | inr _ => _ end] => destruct x eqn:?
  end.

Lemma process_selection_forest pool f noise_level gen n param σ :
  let job := set_selection pool f noise_level RandomForestClassifier gen n param in
  ∃ calls r,
    process_selection job σ
      = (call_RandomForestClassifier n
           :: call_forest_fit n (X_train param) (y_train param) :: calls, σ, r) ∧
    Forall (λ c, ¬ uses_pool c) calls ∧
    (∀ ens, forest_fit n (X_train param) (y_train param) = inr ens →
       head calls = Some (call_predict ens (X_test param) None)) ∧
    (∀ res, r = inr res →
       ∃ ens, forest_fit n (X_train param) (y_train param) = inr ens ∧
              predict ens (X_test param) None = inr (res_predictions res)).
Proof.
  intros job. subst job.
  unfold process_selection, set_selection. cbn [pool_clf fold_name gen_method ds_method
    params_rf X_train y_train X_test y_test].
  rewrite !bind_getitem_Some. rewrite decide_True by done.
  destruct (decide (RandomForestClassifier = Oracle)) as [?|_]; [done|].
  unfold process_metrics, bind, ret, ext. cbn.
  case_results; eexists _, _; (split; [reflexivity|]);
    (split; [repeat constructor; by intros []|]);
    (split; [intros; by simplify_eq|]); intros; simplify_eq; eauto.
Qed.

Lemma calibration_loop X y (members acc : list Estimator) (σ : list (list Estimator)) :
  (∀ clf, clf ∈ members → calibration_error clf "prefit" X y = None) →
  for_each members (λ clf,
    ext (call_CalibratedClassifierCV clf "prefit") (inr ()) ;;
    ext (call_calibrated_fit clf "prefit" X y)
        (match calibration_error clf "prefit" X y with
         | Some e => inl e
         | None => inr ()
         end) ;;
    list_append (length σ) (CalibratedClassifierCV clf "prefit" (Some (X, y))))
    (σ ++ [acc])
  = (members ≫= calibration_calls X y, σ ++ [acc ++ (calibrated X y <$> members)], inr ()).
Proof.
  revert acc. induction members as [|clf members IH]; intros acc Hok; simpl.
  - by rewrite app_nil_r.
  - unfold bind at 1. unfold bind at 1. unfold ext at 1.
    unfold bind at 1. unfold ext at 1.
    rewrite (Hok clf) by left. unfold list_append at 1. simpl.
    rewrite alter_app_r_alt by lia. rewrite Nat.sub_diag. simpl.
    rewrite IH by (intros; apply Hok; by right).
    by rewrite <- app_assoc.
Qed.

Lemma calibrate_pool_run X y l pool (σ : list (list Estimator)) :
  σ !! l = Some pool →
  (∀ clf, clf ∈ pool → calibration_error clf "prefit" X y = None) →
  calibrate_pool X y l σ
  = (pool ≫= calibration_calls X y, σ ++ [calibrated X y <$> pool], inr (length σ)).
Proof.
  intros Hl Hok. unfold calibrate_pool.
  unfold bind at 1. unfold new_list at 1.
  unfold bind at 1. unfold list_members at 1.
  rewrite lookup_app_l by (by eapply lookup_lt_Some).
  rewrite Hl. unfold bind at 1.
  rewrite (calibration_loop X y pool [] σ Hok). simpl.
  by rewrite app_nil_r.
Qed.

Lemma process_selection_calibrates (args : Args) σ l name m n pool :
  pool_clf args = Some l → fold_name args = Some name →
  gen_method args = Some SGH → ds_method args = Some m →
  m = METADES ∨ m = KNOP → params_rf args = Some n →
  σ !! l = Some pool →
  (∀ clf, clf ∈ pool →
     calibration_error clf "prefit" (X_train args) (y_train args) = None) →
  let calibrated_pool := calibrated (X_train args) (y_train args) <$> pool in
  ∃ rest r,
    process_selection args σ
    = ((pool ≫= calibration_calls (X_train args) (y_train args))
         ++ call_ds_ensemble (X_train args) (y_train args) calibrated_pool m :: rest,
       σ ++ [calibrated_pool], r) ∧
    length calibrated_pool = length pool ∧
    (σ ++ [calibrated_pool]) !! l = Some pool.
Proof.
  intros Hl Hname Hgen Hm Hprob Hn Hpool Hok cal.
  assert (length cal = length pool) as Hlen by apply length_fmap.
  assert ((σ ++ [cal]) !! l = Some pool) as Hkept.
  { rewrite lookup_app_l; [done|]. by eapply lookup_lt_Some. }
  unfold process_selection. rewrite Hl, Hname, Hgen, Hm, Hn.
  rewrite !bind_getitem_Some.
  rewrite decide_False by (by destruct Hprob as [-> | ->]).
  rewrite decide_True by done.
  unfold bind at 1. unfold bind at 1.
  rewrite (calibrate_pool_run _ _ l pool) by done.
  unfold bind at 1. unfold list_members at 1.
  rewrite lookup_app_r, Nat.sub_diag by lia. simpl. fold cal.
  unfold ext at 1.
  destruct (ds_ensemble (X_train args) (y_train args) cal m) as [e|ens].
  { by eexists [], _. }
  unfold process_metrics, bind, ret, ext. cbn.
  case_decide; case_results; eexists _, _; (split; [|done]);
    rewrite <- ?app_assoc; simpl; reflexivity.
Qed.

Lemma process_generation_run gen param σ :
  calls_of (process_generation (set_generation gen None param)) σ
  = [call_gen_ensemble (X_train param) (y_train param) gen (mkPerceptron 1000 (-1)) 100].
Proof.
  unfold calls_of, process_generation, set_generation, bind, getitem, ret, ext, new_list.
  cbn. by destruct (gen_ensemble _ _ _ _ _).
Qed.

End monad.

(** ** Aggregation *)

Section aggregation.
Context `{Dom : Domain}.

Lemma res_mapM_inr {A B} (f : A → Res B) (g : A → B) (l : list A) :
  Forall (λ x, f x = inr (g x)) l → res_mapM f l = inr (g <$> l).
Proof.
  induction 1 as [|x l Hx Hl IH]; [done|]. simpl. by rewrite Hx, IH.
Qed.

Lemma res_mapM_inl {A B} (f : A → Res B) (e : Exn) (l : list A) :
  Forall (λ x, f x = inl e ∨ ∃ b, f x = inr b) l →
  Exists (λ x, f x = inl e) l → res_mapM f l = inl e.
Proof.
  induction 1 as [|x l Hx Hl IH]; intros Hex; [by apply Exists_nil in Hex|].
  simpl. destruct Hx as [Hx|[b Hx]]; rewrite Hx; [done|]. simpl.
  apply Exists_cons in Hex as [Hex|Hex]; [congruence|]. by rewrite IH.
Qed.


(** The aggregate of folds whose matrices fit the canonical shape. *)
Lemma save_metrics_fits (results : list FoldResult) (acts : list string) :
  NoDup acts → results ≠ [] →
  Forall (λ r, length (res_conf_matrix r) ≤ length acts ∧
               Forall (λ row, length row ≤ length acts) (res_conf_matrix r)) results →
  ∃ agg,
    save_metrics results acts = inr agg ∧
    agg_folds_name agg = res_fold_name <$> results ∧
    agg_predictions agg = concat (res_predictions <$> results) ∧
    agg_dfs agg = (λ r, embedded acts (res_conf_matrix r)) <$> results ∧
    res_mapM (embed acts) (res_conf_matrix <$> results) = inr (agg_dfs agg) ∧
    pd.index (agg_cm agg) = seq 0 (length acts) ∧
    pd.values (agg_cm agg)
      = cells (elementwise_sum (length acts) (pd.to_matrix <$> agg_dfs agg)).
Proof.
  intros Hnd Hne Hfit. unfold save_metrics.
  assert (res_mapM (embed acts) (res_conf_matrix <$> results)
          = inr ((λ r, embedded acts (res_conf_matrix r)) <$> results)) as Hdfs.
  { rewrite (res_mapM_inr _ (embedded acts)).
    - by rewrite <- list_fmap_compose.
    - apply Forall_fmap. eapply Forall_impl; [exact Hfit|].
      intros r [Hlen Hrows]. simpl. by apply embed_fits. }
  assert (Forall (pd.canonical (length acts))
            ((λ r, embedded acts (res_conf_matrix r)) <$> results)) as Hcan.
  { apply Forall_fmap. eapply Forall_impl; [exact Hfit|].
    intros r [Hlen Hrows]. simpl. by apply canonical_embedded. }
  destruct (np.concatenate (res_predictions <$> results)) as [e|predictions] eqn:Hcat.
  { destruct results; [done|simplify_eq/=]. }
  simpl. rewrite Hdfs. simpl.
  destruct (pd.concat ((λ r, embedded acts (res_conf_matrix r)) <$> results))
    as [e|all_rows] eqn:Hall.
  { destruct results; [done|simplify_eq/=]. }
  simpl. destruct (groupby_concat_sum _ _ _ Hcan Hall) as [Hidx Hvals].
  eexists. split; [done|]. simpl. repeat split; try done.
  destruct results; [done|]. by simplify_eq/=.
Qed.


(** C8, as the code has it.  The aggregation checks sizes only.  With
    square fold matrices, the aggregation fails (a [ValueError] out of the
    row assignment) as soon as one fold matrix has more rows than the
    canonical class list; when every fold matrix fits, it does not fail,
    whatever labels the folds observed: each fold matrix is placed in the
    top-left corner of its canonical frame. *)
Theorem aggregation_checks_sizes_only (results : list FoldResult)
    (activities_list : list string) :
  NoDup activities_list → results ≠ [] →
  Forall (λ r, square (length (res_conf_matrix r)) (res_conf_matrix r)) results →
  (Exists (λ r, length activities_list < length (res_conf_matrix r)) results →
     save_metrics results activities_list = inl ValueError) ∧
  (Forall (λ r, length (res_conf_matrix r) ≤ length activities_list) results →
     ∃ agg, save_metrics results activities_list = inr agg ∧
       Forall2 (λ r df,
           embed activities_list (res_conf_matrix r) = inr df ∧
           top_left (length (res_conf_matrix r)) (pd.values df)
             = cells (res_conf_matrix r))
         results (agg_dfs agg)).
Proof.
  intros Hnd Hne Hsq. split.
  - intros Hbig. unfold save_metrics.
    destruct (np.concatenate (res_predictions <$> results)) as [e|predictions] eqn:Hcat.
    { destruct results; [done|simplify_eq/=]. }
    simpl. rewrite (res_mapM_inl _ ValueError); [done| |].
    + apply Forall_fmap. eapply Forall_impl; [exact Hsq|].
      intros r Hr. simpl.
      destruct (decide (length (res_conf_matrix r) ≤ length activities_list)).
      * right. eexists. apply embed_fits; [done..|].
        destruct Hr as [_ Hrows]. eapply Forall_impl; [exact Hrows|].
        intros row Hrow. simpl in *. lia.
      * left. eapply embed_too_wide; [done|exact Hr|lia].
    + apply Exists_exists in Hbig as (r & Hr & Hbig).
      apply Exists_exists. exists (res_conf_matrix r). split.
      * by apply list_elem_of_fmap_2.
      * rewrite Forall_forall in Hsq. by eapply embed_too_wide; [|apply Hsq|].
  - intros Hfit.
    destruct (save_metrics_fits results activities_list) as (agg & Hagg & _ & _ & Hdfs & _);
      [done..| |].
    { apply Forall_forall. intros r Hr.
      rewrite Forall_forall in Hsq, Hfit. split; [by apply Hfit|].
      destruct (Hsq r Hr) as [_ Hrows]. eapply Forall_impl; [exact Hrows|].
      intros row Hrow. simpl in *. rewrite Hrow. by apply Hfit. }
    exists agg. split; [done|]. rewrite Hdfs.
    apply Forall2_fmap_r, Forall_Forall2_diag.
    apply Forall_forall. intros r Hr.
    rewrite Forall_forall in Hsq, Hfit. destruct (Hsq r Hr) as [Hlen Hrows]. split.
    + apply embed_fits; [done|by apply Hfit|].
      eapply Forall_impl; [exact Hrows|].
      intros row Hrow. simpl in *. rewrite Hrow. by apply Hfit.
    + by apply top_left_embedded.
Qed.

End aggregation.

(** ** The grid cell *)

Section cell.
Context `{Dom : Domain} `{Lib : !Library}.

Lemma make_jobs_Forall2 f parameters pool_gen iteration gen sel noise_level jobs :
  make_jobs f parameters pool_gen iteration gen sel noise_level = inr jobs →
  length pool_gen = length parameters →
  Forall2 (λ param job,
      X_train job = X_train param ∧ y_train job = y_train param ∧
      X_test job = X_test param ∧ y_test job = y_test param ∧
      ds_method job = Some sel)
    parameters jobs.
Proof.
  intros Hjobs Hlen. apply Forall2_same_length_lookup_2.
  - symmetry. by eapply make_jobs_length.
  - intros i param job Hparam Hjob.
    destruct (make_jobs_lookup _ _ _ _ _ _ _ _ _ _ Hjobs Hjob)
      as (param' & pool & n & Hparam' & _ & _ & ->).
    by simplify_eq.
Qed.

Lemma length_predictions (job : Args) σ c σ' r :
  (∀ e X y l, predict e X y = inr l → length l = length X) →
  process_selection job σ = (c, σ', inr r) →
  length (res_predictions r) = length (X_test job).
Proof.
  intros Hlaw Hrun.
  destruct (process_selection_inr _ _ _ _ _ Hrun) as (_ & _ & e & _ & He).
  by eapply Hlaw.
Qed.

Lemma length_concat_predictions (parameters : list Args) (results : list FoldResult) :
  Forall2 (λ param r, length (res_predictions r) = length (X_test param))
    parameters results →
  length (concat (res_predictions <$> results))
  = sum_list ((λ param, length (X_test param)) <$> parameters).
Proof.
  induction 1 as [|param r parameters results Hr Hrest IH]; [done|].
  rewrite !fmap_cons. simpl. rewrite length_app, IH. by f_equal.
Qed.

(** C5.  Prediction alignment.  When the evaluation of a cell returns, its
    results are in the order of the folds: result [i] carries the name
    [Fold_(i+1)] and the predictions the selector returned for the test
    features of fold [i].  Their concatenation by [save_metrics] is the
    fold-order concatenation of the per-fold predictions, and its length is
    the sum of the per-fold test-set sizes.  [save_metrics] returns whenever
    the fold matrices fit the canonical class list, and what it returns
    holds that concatenation and the fold names in the order of the
    folds. *)
Theorem predictions_in_fold_order parameters pool_gen iteration gen sel noise_level
    σ calls σ' results :
  (∀ e X y l, predict e X y = inr l → length l = length X) →
  length pool_gen = length parameters → parameters ≠ [] →
  experiment_selection parameters pool_gen iteration gen sel noise_level σ
    = (calls, σ', inr results) →
  (∀ i, res_fold_name <$> (results !! i)
        = (λ _, "Fold_" +:+ pretty (i + 1)) <$> (parameters !! i)) ∧
  Forall2 (λ param r, ∃ e y, predict e (X_test param) y = inr (res_predictions r))
    parameters results ∧
  np.concatenate (res_predictions <$> results)
    = inr (concat (res_predictions <$> results)) ∧
  length (concat (res_predictions <$> results))
    = sum_list ((λ param, length (X_test param)) <$> parameters) ∧
  (∀ activities_list agg,
    save_metrics results activities_list = inr agg →
    agg_predictions agg = concat (res_predictions <$> results)) ∧
  ∀ activities_list : list string,
    NoDup activities_list →
    Forall (λ r, length (res_conf_matrix r) ≤ length activities_list ∧
                 Forall (λ row, length row ≤ length activities_list)
                   (res_conf_matrix r)) results →
    ∃ agg,
      save_metrics results activities_list = inr agg ∧
      agg_predictions agg = concat (res_predictions <$> results) ∧
      agg_folds_name agg
      = (λ i, "Fold_" +:+ pretty (i + 1)) <$> seq 0 (length parameters).
Proof.
  intros Hlaw Hlen Hne Hrun.
  apply experiment_selection_inr in Hrun as (jobs & c' & Hjobs & Hmap & ->).
  pose proof (make_jobs_Forall2 _ _ _ _ _ _ _ _ Hjobs Hlen) as Hpj.
  pose proof (make_jobs_length _ _ _ _ _ _ _ _ Hjobs Hlen) as Hjl.
  assert (Forall2 (λ job r,
            fold_name job = Some (res_fold_name r) ∧
            (∃ e, predict e (X_test job) (predict_labels job) = inr (res_predictions r)))
          jobs results) as Hjr.
  { eapply map_list_inr_Forall2; [|exact Hmap].
    intros job σ1 c1 σ1' r Hr.
    destruct (process_selection_inr _ _ _ _ _ Hr) as (Hname & _ & e & _ & He).
    eauto. }
  pose proof (Forall2_length _ _ _ Hjr) as Hrl.
  assert (Forall2 (λ param r, ∃ e y, predict e (X_test param) y = inr (res_predictions r))
            parameters results) as Hpr.
  { apply Forall2_same_length_lookup_2; [lia|].
    intros i param r Hparam Hr.
    destruct (lookup_lt_is_Some_2 jobs i) as [job Hjob].
    { apply lookup_lt_Some in Hr. lia. }
    destruct (Forall2_lookup_lr _ _ _ _ _ _ Hpj Hparam Hjob) as (_ & _ & HX & _).
    destruct (Forall2_lookup_lr _ _ _ _ _ _ Hjr Hjob Hr) as (_ & e & He).
    rewrite HX in He. eauto. }
  assert (∀ i, res_fold_name <$> (results !! i)
               = (λ _, "Fold_" +:+ pretty (i + 1)) <$> (parameters !! i)) as Hnames.
  2: split; [exact Hnames|split; [done|split; [|split; [|split]]]].
  - intros i. destruct (parameters !! i) as [param|] eqn:Hparam; simpl.
    + destruct (lookup_lt_is_Some_2 jobs i) as [job Hjob].
      { apply lookup_lt_Some in Hparam. lia. }
      destruct (lookup_lt_is_Some_2 results i) as [r Hr].
      { apply lookup_lt_Some in Hparam. lia. }
      rewrite Hr. simpl. f_equal.
      destruct (Forall2_lookup_lr _ _ _ _ _ _ Hjr Hjob Hr) as (Hname & _).
      destruct (make_jobs_lookup _ _ _ _ _ _ _ _ _ _ Hjobs Hjob)
        as (param' & pool & n & _ & _ & _ & ->).
      simpl in Hname. by simplify_eq.
    + rewrite lookup_ge_None_2; [done|]. apply lookup_ge_None_1 in Hparam. lia.
  - destruct results; [|done]. destruct parameters; [done|simpl in *; lia].
  - apply length_concat_predictions. eapply Forall2_impl; [exact Hpr|].
    intros param r (e & y & He). by eapply Hlaw.
  - intros acts agg Hagg. unfold save_metrics in Hagg.
    destruct (np.concatenate (res_predictions <$> results)) as [e|ps] eqn:Hcat;
      [done|].
    assert (ps = concat (res_predictions <$> results)) as ->.
    { unfold np.concatenate in Hcat. destruct (res_predictions <$> results); by simplify_eq. }
    simpl in Hagg.
    destruct (res_mapM _ _) as [e|dfs]; [done|]. simpl in Hagg.
    destruct (pd.concat dfs) as [e|all_rows]; [done|]. simpl in Hagg.
    by simplify_eq.
  - intros acts Hnd Hfit.
    destruct (save_metrics_fits results acts) as (agg & Hagg & Hfn & Hpred & _);
      [done| |done|].
    { destruct results; [|done]. destruct parameters; [done|simpl in *; lia]. }
    exists agg. split; [done|]. split; [done|]. rewrite Hfn.
    apply list_eq. intros i. rewrite !list_lookup_fmap, Hnames.
    destruct (decide (i < length parameters)) as [Hi|Hi].
    + rewrite lookup_seq_lt by done.
      by destruct (lookup_lt_is_Some_2 parameters i Hi) as [param ->].
    + rewrite lookup_seq_ge by lia. by rewrite lookup_ge_None_2 by lia.
Qed.

Lemma sumZ_of_nat_lengths (ns : list nat) :
  sumZ (Z.of_nat <$> ns) = Z.of_nat (sum_list ns).
Proof. induction ns as [|n ns IH]; [done|]. rewrite fmap_cons, sumZ_cons, IH. simpl. lia. Qed.

(** C2.  Aggregation additivity.  When the evaluation of a cell returns and
    every fold matrix fits the canonical class list, [save_metrics] returns:
    the frames it builds are the per-fold embeddings, the merged matrix is
    the element-wise sum of the matrices of those frames, and the sum of its
    entries is the number of test examples of all the folds of the cell. *)
Theorem aggregation_additivity parameters pool_gen iteration gen sel noise_level
    σ calls σ' results (activities_list : list string) :
  NoDup activities_list → parameters ≠ [] →
  length pool_gen = length parameters →
  (∀ e X y l, predict e X y = inr l → length l = length X) →
  Forall (λ param, length (y_test param) = length (X_test param)) parameters →
  experiment_selection parameters pool_gen iteration gen sel noise_level σ
    = (calls, σ', inr results) →
  Forall (λ r, length (res_conf_matrix r) ≤ length activities_list) results →
  ∃ agg,
    save_metrics results activities_list = inr agg ∧
    res_mapM (embed activities_list) (res_conf_matrix <$> results) = inr (agg_dfs agg) ∧
    pd.values (agg_cm agg)
      = cells (elementwise_sum (length activities_list) (pd.to_matrix <$> agg_dfs agg)) ∧
    matrix_total (pd.to_matrix (agg_cm agg))
      = Z.of_nat (sum_list ((λ param, length (X_test param)) <$> parameters)).
Proof.
  intros Hnd Hne Hlen Hlaw Hfolds Hrun Hfit.
  apply experiment_selection_inr in Hrun as (jobs & c' & Hjobs & Hmap & ->).
  pose proof (make_jobs_Forall2 _ _ _ _ _ _ _ _ Hjobs Hlen) as Hpj.
  pose proof (make_jobs_length _ _ _ _ _ _ _ _ Hjobs Hlen) as Hjl.
  assert (Forall2 (λ job r,
            res_conf_matrix r = confusion_matrix_score (y_test job) (res_predictions r) ∧
            length (res_predictions r) = length (X_test job))
          jobs results) as Hjr.
  { eapply map_list_inr_Forall2; [|exact Hmap].
    intros job σ1 c1 σ1' r Hr. split.
    - by destruct (process_selection_inr _ _ _ _ _ Hr) as (_ & ? & _).
    - by eapply length_predictions. }
  pose proof (Forall2_length _ _ _ Hjr) as Hrl.
  assert (Forall2 (λ param r,
            res_conf_matrix r = confusion_matrix_score (y_test param) (res_predictions r) ∧
            length (res_predictions r) = length (X_test param))
          parameters results) as Hpr.
  { apply Forall2_same_length_lookup_2; [lia|].
    intros i param r Hparam Hr.
    destruct (lookup_lt_is_Some_2 jobs i) as [job Hjob].
    { apply lookup_lt_Some in Hr. lia. }
    destruct (Forall2_lookup_lr _ _ _ _ _ _ Hpj Hparam Hjob) as (_ & _ & HX & Hy & _).
    destruct (Forall2_lookup_lr _ _ _ _ _ _ Hjr Hjob Hr) as (Hcm & Hp).
    by rewrite HX, Hy in *. }
  assert (Forall (λ r, square (length (res_conf_matrix r)) (res_conf_matrix r)) results)
    as Hsq.
  { apply Forall_forall. intros r Hr.
    apply list_elem_of_lookup in Hr as [i Hr].
    destruct (Forall2_lookup_r _ _ _ _ _ Hpr Hr) as (param & _ & -> & _).
    pose proof (square_confusion_matrix (y_test param) (res_predictions r)) as Hs.
    by rewrite <- (proj1 Hs) in Hs at 1. }
  assert (Forall (λ r, length (res_conf_matrix r) ≤ length activities_list ∧
                       Forall (λ row, length row ≤ length activities_list)
                         (res_conf_matrix r)) results) as Hfits.
  { apply Forall_forall. intros r Hr.
    rewrite Forall_forall in Hsq, Hfit. split; [by apply Hfit|].
    destruct (Hsq r Hr) as [_ Hrows]. eapply Forall_impl; [exact Hrows|].
    intros row Hrow. simpl in *. rewrite Hrow. by apply Hfit. }
  destruct (save_metrics_fits results activities_list)
    as (agg & Hagg & _ & _ & Hdfs & Hembed & Hidx & Hvals); [done| |done|].
  { destruct results; [|done]. destruct parameters; [done|simpl in *; lia]. }
  exists agg. split; [done|]. split; [done|]. split; [done|].
  destruct (agg_cm agg) as [idx cols vals] eqn:Hcm. simpl in Hvals. subst vals.
  rewrite to_matrix_cells, matrix_total_elementwise_sum.
  2:{ rewrite Hdfs. apply Forall_fmap, Forall_fmap.
      eapply Forall_impl; [exact Hfits|]. intros r [? ?]. simpl.
      by apply square_to_matrix, canonical_embedded. }
  rewrite Hdfs, <- !list_fmap_compose.
  rewrite <- sumZ_of_nat_lengths, <- list_fmap_compose.
  clear -Hpr Hfolds. induction Hpr as [|param r parameters results [Hcm Hp] Hrest IH];
    [done|].
  apply Forall_cons in Hfolds as [Hfold Hfolds].
  rewrite !fmap_cons, !sumZ_cons, IH by done. f_equal. simpl.
  rewrite matrix_total_embedded, Hcm, matrix_total_confusion.
  rewrite length_zip_with. lia.
Qed.

(** C3.  Calibration for probability-dependent selection.  With the pools
    generated as [__main__] does (no imbalance correction), the pool of a
    fold is generated from the training data of its bundle.  When the fold is
    evaluated with SGH pools and METADES or KNOP, and no calibration fails,
    the evaluation wraps each member of the pool, in turn and on its own, in
    a calibration layer built in ['prefit'] mode and fit on that same
    training data; the selector is built from the new list, which has as
    many members as the pool; and the pool object itself still holds its
    members, unchanged, after the evaluation. *)
Theorem calibrated_pool_for_probabilistic_selection (args : Args) σ σ0 l name m n pool :
  pool_clf args = Some l → fold_name args = Some name →
  gen_method args = Some SGH → ds_method args = Some m →
  m = METADES ∨ m = KNOP → params_rf args = Some n →
  σ !! l = Some pool →
  (∀ clf, clf ∈ pool →
     calibration_error clf "prefit" (X_train args) (y_train args) = None) →
  let calibrated_pool := calibrated (X_train args) (y_train args) <$> pool in
  calls_of (process_generation (set_generation SGH None args)) σ0
    = [call_gen_ensemble (X_train args) (y_train args) SGH (mkPerceptron 1000 (-1)) 100] ∧
  ∃ rest r,
    process_selection args σ
    = ((pool ≫= calibration_calls (X_train args) (y_train args))
         ++ call_ds_ensemble (X_train args) (y_train args) calibrated_pool m :: rest,
       σ ++ [calibrated_pool], r) ∧
    length calibrated_pool = length pool ∧
    (σ ++ [calibrated_pool]) !! l = Some pool.
Proof.
  intros. split; [apply process_generation_run|].
  by eapply process_selection_calibrates.
Qed.

Lemma process_selection_predicts (args : Args) σ l name gen m n c1 σ1 pool ens :
  pool_clf args = Some l → fold_name args = Some name →
  gen_method args = Some gen → ds_method args = Some m →
  params_rf args = Some n →
  m ≠ RandomForestClassifier →
  (let! pool_clf :=
     if decide (gen = SGH ∧ (m = METADES ∨ m = KNOP)) then
       calibrate_pool (X_train args) (y_train args) l
     else ret l in
   list_members pool_clf) σ = (c1, σ1, inr pool) →
  ds_ensemble (X_train args) (y_train args) pool m = inr ens →
  ∃ rest r,
    process_selection args σ
    = (c1 ++ call_ds_ensemble (X_train args) (y_train args) pool m
          :: call_predict ens (X_test args)
               (if decide (m = Oracle) then Some (y_test args) else None)
          :: rest, σ1, r) ∧
    Forall (λ c, ∀ e X y, c ≠ call_predict e X y) (c1 ++ rest) ∧
    match predict ens (X_test args)
            (if decide (m = Oracle) then Some (y_test args) else None) with
    | inl e => r = inl e
    | inr p => ∀ res, r = inr res → res_predictions res = p
    end.
Proof.
  intros Hl Hname Hgen Hm Hn Hrf Hsub Hens.
  assert (Forall (λ c, ∀ e X y, c ≠ call_predict e X y) c1) as Hc1.
  { assert (emits (λ c, ∀ e X y, c ≠ call_predict e X y)
              (let! pool_clf :=
                 if decide (gen = SGH ∧ (m = METADES ∨ m = KNOP)) then
                   calibrate_pool (X_train args) (y_train args) l
                 else ret l in
               list_members pool_clf)) as Hem.
    { apply emits_bind; [|intros ?; apply emits_list_members].
      case_decide; [|apply emits_ret]. by apply emits_calibrate_pool. }
    specialize (Hem σ). unfold calls_of in Hem. by rewrite Hsub in Hem. }
  apply bind_inr_inv in Hsub as (c0 & σ0 & l' & c0' & HA & Hlm & ->).
  unfold process_selection. rewrite Hl, Hname, Hgen, Hm, Hn.
  rewrite !bind_getitem_Some. rewrite decide_False by done.
  assert ((let! pool_clf :=
             if decide (gen = SGH ∧ (m = METADES ∨ m = KNOP)) then
               calibrate_pool (X_train args) (y_train args) l
             else ret l in
           let! pool := list_members pool_clf in
           ext (call_ds_ensemble (X_train args) (y_train args) pool m)
               (ds_ensemble (X_train args) (y_train args) pool m)) σ
          = ((c0 ++ c0') ++ [call_ds_ensemble (X_train args) (y_train args) pool m],
             σ1, inr ens)) as HE.
  { rewrite (bind_inr _ _ _ _ _ _ HA). rewrite (bind_inr _ _ _ _ _ _ Hlm).
    unfold ext. rewrite Hens. simpl. by rewrite app_assoc. }
  rewrite (bind_inr _ _ _ _ _ _ HE).
  unfold process_metrics, bind, ret, ext.
  destruct (predict ens (X_test args) (if decide (m = Oracle) then Some (y_test args) else None))
    as [e|p] eqn:Hp.
  - exists [], (inl e). rewrite app_nil_r.
    destruct (decide (m = Oracle)); rewrite Hp; simpl;
      (split; [by rewrite <- !app_assoc|done]).
  - destruct (decide (m = Oracle)); rewrite Hp; cbn;
      repeat match goal with
      | |- context [match ?x with inl _ => _ | inr _ => _ end] => destruct x eqn:?
      end; cbn; eexists _, _;
      (split; [rewrite <- !app_assoc; simpl; reflexivity|]);
      (split; [apply Forall_app; split; [done|by repeat constructor]|]);
      intros; by simplify_eq.
Qed.

Lemma process_selection_forest_predicts (args : Args) σ l name gen n ens :
  pool_clf args = Some l → fold_name args = Some name →
  gen_method args = Some gen → ds_method args = Some RandomForestClassifier →
  params_rf args = Some n →
  forest_fit n (X_train args) (y_train args) = inr ens →
  ∃ rest r,
    process_selection args σ
    = (call_RandomForestClassifier n
         :: call_forest_fit n (X_train args) (y_train args)
         :: call_predict ens (X_test args) None :: rest, σ, r).
Proof.
  intros Hl Hname Hgen Hm Hn Hfit.
  unfold process_selection. rewrite Hl, Hname, Hgen, Hm, Hn.
  rewrite !bind_getitem_Some. rewrite decide_True by done.
  destruct (decide (RandomForestClassifier = Oracle)) as [?|_]; [done|].
  unfold process_metrics, bind, ret, ext. rewrite Hfit. cbn.
  repeat match goal with
  | |- context [match ?x with inl _ => _ | inr _ => _ end] => destruct x eqn:?
  end; by eexists _, _.
Qed.

(** C4.  Test labels at prediction time.  Every [predict] call of a fold
    evaluation is given the test features of the fold, together with the
    test labels when the selection method is the oracle and with nothing
    else otherwise; and the predictions of an evaluation that returns are
    what such a call returned.  The call is made: for a complete bundle and
    a method other than the forest, once the members of the pool (calibrated
    where the method needs it) are read and the selector is built from them,
    the next call is the [predict] of that selector, on the test features,
    with the test labels for the oracle and without labels otherwise; it is
    the only [predict] call of the evaluation, its failure is the failure
    of the evaluation, and its answer is the predictions of the result.
    For the forest, the [predict] that follows the fit is given the test
    features alone. *)
Theorem predict_sees_test_labels_only_for_oracle (args : Args) σ :
  Forall (λ c, ∀ e X y, c = call_predict e X y →
            X = X_test args ∧
            y = if decide (ds_method args = Some Oracle)
                then Some (y_test args) else None)
    (calls_of (process_selection args) σ) ∧
  (∀ c σ' r,
    process_selection args σ = (c, σ', inr r) →
    ∃ e, call_predict e (X_test args) (predict_labels args) ∈ c ∧
         predict e (X_test args) (predict_labels args) = inr (res_predictions r)) ∧
  (∀ l name gen m n c1 σ1 pool ens,
    pool_clf args = Some l → fold_name args = Some name →
    gen_method args = Some gen → ds_method args = Some m →
    params_rf args = Some n →
    m ≠ RandomForestClassifier →
    (let! pool_clf :=
       if decide (gen = SGH ∧ (m = METADES ∨ m = KNOP)) then
         calibrate_pool (X_train args) (y_train args) l
       else ret l in
     list_members pool_clf) σ = (c1, σ1, inr pool) →
    ds_ensemble (X_train args) (y_train args) pool m = inr ens →
    ∃ rest r,
      process_selection args σ
      = (c1 ++ call_ds_ensemble (X_train args) (y_train args) pool m
            :: call_predict ens (X_test args)
                 (if decide (m = Oracle) then Some (y_test args) else None)
            :: rest, σ1, r) ∧
      Forall (λ c, ∀ e X y, c ≠ call_predict e X y) (c1 ++ rest) ∧
      match predict ens (X_test args)
              (if decide (m = Oracle) then Some (y_test args) else None) with
      | inl e => r = inl e
      | inr p => ∀ res, r = inr res → res_predictions res = p
      end) ∧
  (∀ l name gen n ens,
    pool_clf args = Some l → fold_name args = Some name →
    gen_method args = Some gen → ds_method args = Some RandomForestClassifier →
    params_rf args = Some n →
    forest_fit n (X_train args) (y_train args) = inr ens →
    ∃ rest r,
      process_selection args σ
      = (call_RandomForestClassifier n
           :: call_forest_fit n (X_train args) (y_train args)
           :: call_predict ens (X_test args) None :: rest, σ, r)).
Proof.
  split; [apply emits_process_selection_predict|]. split; [|split].
  - intros c σ' r Hrun.
    by destruct (process_selection_inr _ _ _ _ _ Hrun) as (_ & _ & ?).
  - intros. by eapply process_selection_predicts.
  - intros. by eapply process_selection_forest_predicts.
Qed.

(** C6.  The fixed-classifier baseline.  In a cell evaluated with
    [RandomForestClassifier], the number of trees of fold [f] is entry [f]
    of row [iteration] of the table [params]; the evaluation builds a forest
    with that number of trees, fits it on the training data of the fold and
    predicts on the test features alone; no call hands the pool or a member
    of it to a library, the store is left as it was, and the evaluation is
    the same whatever pools are supplied. *)
Theorem forest_baseline_ignores_pool parameters pool_gen pool_gen' iteration gen
    noise_level jobs jobs' f job job' σ :
  make_jobs 0 parameters pool_gen iteration gen RandomForestClassifier noise_level
    = inr jobs →
  make_jobs 0 parameters pool_gen' iteration gen RandomForestClassifier noise_level
    = inr jobs' →
  jobs !! f = Some job → jobs' !! f = Some job' →
  ∃ n,
    params !! iteration ≫= (.!! f) = Some n ∧
    params_rf job = Some n ∧
    process_selection job' σ = process_selection job σ ∧
    ∃ calls r,
      process_selection job σ
        = (call_RandomForestClassifier n
             :: call_forest_fit n (X_train job) (y_train job) :: calls, σ, r) ∧
      Forall (λ c, ¬ uses_pool c) calls ∧
      (∀ ens, forest_fit n (X_train job) (y_train job) = inr ens →
         head calls = Some (call_predict ens (X_test job) None)) ∧
      (∀ res, r = inr res →
         ∃ ens, forest_fit n (X_train job) (y_train job) = inr ens ∧
                predict ens (X_test job) None = inr (res_predictions res)).
Proof.
  intros Hjobs Hjobs' Hjob Hjob'.
  destruct (make_jobs_lookup _ _ _ _ _ _ _ _ _ _ Hjobs Hjob)
    as (param & pool & n & Hparam & _ & Hn & ->).
  destruct (make_jobs_lookup _ _ _ _ _ _ _ _ _ _ Hjobs' Hjob')
    as (param' & pool' & n' & Hparam' & _ & Hn' & ->).
  simplify_eq. exists n. split; [done|]. split; [done|].
  destruct (process_selection_forest pool (0 + f) noise_level gen n param σ)
    as (calls & r & Hrun & Hcalls & Hhead & Hres).
  destruct (process_selection_forest pool' (0 + f) noise_level gen n param σ)
    as (calls' & r' & Hrun' & _).
  split; [|by exists calls, r].
  unfold process_selection, set_selection. cbn [pool_clf fold_name gen_method ds_method
    params_rf X_train y_train X_test y_test].
  rewrite !bind_getitem_Some. by rewrite !decide_True by done.
Qed.

(** C7, as the code has it.  A fold that raises aborts the cell.  When the
    evaluation of a fold raises, after the folds before it have been
    evaluated, the evaluation of the cell raises that exception: its calls
    are the creation of the worker pool, the calls of the folds before and
    the calls of the failing fold up to the failure; the folds after it are
    not evaluated and there is no result set, partial or flagged. *)
Theorem fold_error_aborts_cell parameters pool_gen iteration gen sel noise_level
    before job after σ c1 σ1 rs c2 σ2 e :
  make_jobs 0 parameters pool_gen iteration gen sel noise_level
    = inr (before ++ job :: after) →
  map_list process_selection before σ = (c1, σ1, inr rs) →
  process_selection job σ1 = (c2, σ2, inl e) →
  experiment_selection parameters pool_gen iteration gen sel noise_level σ
    = (call_Pool 5 :: c1 ++ c2, σ2, inl e).
Proof.
  intros Hjobs Hbefore Hjob. unfold experiment_selection.
  erewrite bind_inr by reflexivity. simpl.
  erewrite bind_inr by (by rewrite Hjobs). simpl.
  erewrite bind_inl; [done|]. by eapply map_list_raise.
Qed.

(** C9, what the code does.  The worker pool is created and never used.
    The evaluation of a cell first creates a pool of 5 workers, whatever the
    number of folds; no later call hands a task to that pool; the results
    are those of the built-in [map], which evaluates the folds one after
    the other in the calling process. *)
Theorem pool_of_five_is_never_used parameters pool_gen iteration gen sel noise_level σ :
  ∃ rest,
    calls_of (experiment_selection parameters pool_gen iteration gen sel noise_level) σ
      = call_Pool 5 :: rest ∧
    Forall (λ c, ∀ j, c ≠ call_pool_map j) rest ∧
    (experiment_selection parameters pool_gen iteration gen sel noise_level σ).2
      = match make_jobs 0 parameters pool_gen iteration gen sel noise_level with
        | inl e => inl e
        | inr jobs => (map_list process_selection jobs σ).2
        end.
Proof.
  unfold experiment_selection, calls_of.
  erewrite bind_inr by reflexivity. simpl.
  destruct (make_jobs 0 parameters pool_gen iteration gen sel noise_level)
    as [e|jobs] eqn:Hjobs.
  - erewrite bind_inl by reflexivity. simpl. by eexists.
  - erewrite bind_inr by reflexivity. simpl.
    pose proof (emits_map_list not_pool_map process_selection jobs
                  emits_process_selection_no_pool_map σ) as Hcalls.
    unfold calls_of in Hcalls.
    destruct (map_list process_selection jobs σ) as [[c σ'] [e|rs]] eqn:Hmap; simpl in *.
    + erewrite bind_inl by done. simpl. eexists. split; [done|]. by split.
    + erewrite bind_inr by done. simpl. eexists. split; [done|]. split; [|done].
      apply Forall_app. split; [done|]. by repeat constructor.
Qed.

End cell.

(** ** The parameter bundles *)

Section bundles.
Context `{Dom : Domain}.

(** C10.  Labels the dictionary does not hold.  When every fold has a label
    variant for the noise level, [experiment_parameters] returns one bundle
    per fold, in order, and raises nothing: each training and test label is
    replaced by what the dictionary holds for it, and by [None] when the
    dictionary holds nothing, so the numeric label arrays hold [None] at
    exactly the positions of the labels the dictionary lacks. *)
Theorem labels_absent_from_dict_become_None (folds : list Fold) (noise_level : nat)
    (labels_dict : gmap string Z) :
  Forall (λ fold, is_Some (yTrains fold !! noise_level)) folds →
  ∃ args_list,
    experiment_parameters folds noise_level labels_dict = inr args_list ∧
    Forall2 (λ fold args,
        X_train args = xTrain fold ∧ X_test args = xTest fold ∧
        y_test args = (λ x, labels_dict !! x) <$> yTest fold ∧
        Some (y_train args)
          = fmap (M := list) (λ x, labels_dict !! x) <$> (yTrains fold !! noise_level) ∧
        (∀ i x, yTest fold !! i = Some x → labels_dict !! x = None →
                y_test args !! i = Some None))
      folds args_list.
Proof.
  unfold experiment_parameters.
  induction 1 as [|fold folds [y Hy] Hfolds (args_list & IH & Hall)].
  - exists []. by split.
  - simpl. rewrite Hy, IH. simpl. eexists. split; [done|].
    constructor; [|done]. simpl. rewrite Hy. repeat split; try done.
    intros i x Hx Hnone. by rewrite list_lookup_fmap, Hx, <- Hnone.
Qed.

End bundles.

(** ** The statements on the small instance *)

Section examples.
#[local] Existing Instance Demo.domain.
#[local] Existing Instance Demo.library.

Lemma demo_predict_aligned (e : Demo.DemoEnsemble) (X : list Z)
    (y : option (list (option Z))) (l : list (option Z)) :
  Demo.demo_predict e X y = inr l → length l = length X.
Proof.
  unfold Demo.demo_predict. destruct y as [y|].
  - case_decide; intros [= <-]; done.
  - intros [= <-]. apply length_fmap.
Qed.

Lemma NoDup_demo_activities : NoDup Demo.activities.
Proof. by apply (bool_decide_unpack _). Qed.


Lemma aggregation_additivity_witness :
  ∃ agg,
    save_metrics (Demo.results 0 BaggingClassifier OLA) Demo.activities = inr agg ∧
    res_mapM (embed Demo.activities)
      (res_conf_matrix <$> Demo.results 0 BaggingClassifier OLA) = inr (agg_dfs agg) ∧
    pd.values (agg_cm agg)
      = cells (elementwise_sum (length Demo.activities) (pd.to_matrix <$> agg_dfs agg)) ∧
    matrix_total (pd.to_matrix (agg_cm agg))
      = Z.of_nat (sum_list ((λ param, length (X_test param))
                              <$> Demo.bundles 0 BaggingClassifier)).
Proof.
  apply (aggregation_additivity
           (Demo.bundles 0 BaggingClassifier) (Demo.pools 0 BaggingClassifier)
           0 BaggingClassifier OLA 0 (Demo.store 0 BaggingClassifier)
           (Demo.cell 0 BaggingClassifier OLA).1.1
           (Demo.cell 0 BaggingClassifier OLA).1.2).
  - exact NoDup_demo_activities.
  - by vm_compute.
  - by vm_compute.
  - exact demo_predict_aligned.
  - vm_compute. by repeat constructor.
  - by vm_compute.
  - vm_compute. repeat constructor; lia.
Defined.

Lemma aggregation_checks_sizes_only_witness :
  save_metrics Demo.wide_results Demo.activities = inl ValueError ∧
  ∃ agg,
    save_metrics (Demo.results 0 BaggingClassifier OLA) Demo.activities = inr agg ∧
    Forall2 (λ r df,
        embed Demo.activities (res_conf_matrix r) = inr df ∧
        top_left (length (res_conf_matrix r)) (pd.values df) = cells (res_conf_matrix r))
      (Demo.results 0 BaggingClassifier OLA) (agg_dfs agg).
Proof.
  split.
  - apply (aggregation_checks_sizes_only Demo.wide_results Demo.activities).
    + exact NoDup_demo_activities.
    + by vm_compute.
    + vm_compute. repeat constructor.
    + apply Exists_cons_hd. vm_compute. lia.
  - apply (aggregation_checks_sizes_only (Demo.results 0 BaggingClassifier OLA)
             Demo.activities).
    + exact NoDup_demo_activities.
    + by vm_compute.
    + vm_compute. repeat constructor.
    + vm_compute. repeat constructor; lia.
Defined.

(** C8, as the spec has it, fails: the first demo fold observes the classes
    0 and 2 only, which is no prefix of the canonical ordering, and the
    aggregation of the cell returns all the same; the examples of class 2
    ([cook]) of that fold and of the third are counted in the column of
    class 1 ([sleep]). *)
Lemma nonprefix_fold_is_embedded_silently :
  ∃ r,
    Demo.results 0 BaggingClassifier OLA !! 0 = Some r ∧
    observed_labels (y_test (Demo.job 0 BaggingClassifier OLA 0)) (res_predictions r)
      = [Some 0%Z; Some 2%Z] ∧
    ¬ prefix_labels [Some 0%Z; Some 2%Z] ∧
    res_conf_matrix r = [[1; 1]; [0; 1]]%Z ∧
    ∃ agg,
      save_metrics (Demo.results 0 BaggingClassifier OLA) Demo.activities = inr agg ∧
      pd.values (agg_cm agg) = cells [[3; 1; 0]; [0; 3; 0]; [0; 1; 1]]%Z.
Proof.
  eexists. split; [by vm_compute|]. split; [by vm_compute|].
  split; [by intros [=]|]. split; [done|].
  eexists. split; by vm_compute.
Qed.

Lemma calibrated_pool_witness :
  let args := Demo.job 0 SGH METADES 0 in
  let pool := Trained <$> seq 0 100 in
  let calibrated_pool := calibrated (X_train args) (y_train args) <$> pool in
  calls_of (process_generation (set_generation SGH None args)) []
    = [call_gen_ensemble (X_train args) (y_train args) SGH (mkPerceptron 1000 (-1)) 100] ∧
  ∃ rest r,
    process_selection args (Demo.store 0 SGH)
    = ((pool ≫= calibration_calls (X_train args) (y_train args))
         ++ call_ds_ensemble (X_train args) (y_train args) calibrated_pool METADES :: rest,
       Demo.store 0 SGH ++ [calibrated_pool], r) ∧
    length calibrated_pool = length pool ∧
    (Demo.store 0 SGH ++ [calibrated_pool]) !! 0 = Some pool.
Proof.
  apply (calibrated_pool_for_probabilistic_selection
           (Demo.job 0 SGH METADES 0) (Demo.store 0 SGH) [] 0 "Fold_1" METADES 70%Z
           (Trained <$> seq 0 100)).
  - by vm_compute.
  - by vm_compute.
  - by vm_compute.
  - by vm_compute.
  - by left.
  - by vm_compute.
  - by vm_compute.
  - intros clf _. by vm_compute.
Defined.

Lemma predict_sees_test_labels_witness :
  let σ := Demo.store 0 BaggingClassifier in
  let pool := @Trained Demo.domain <$> seq 0 100 in
  (let args := Demo.job 0 BaggingClassifier Oracle 0 in
   ∃ rest r,
     process_selection args σ
     = ([] ++ call_ds_ensemble (X_train args) (y_train args) pool Oracle
           :: call_predict (Demo.Selector Oracle 100) (X_test args) (Some (y_test args))
           :: rest, σ, r) ∧
     Forall (λ c, ∀ e X y, c ≠ call_predict e X y) ([] ++ rest) ∧
     ∀ res, r = inr res → res_predictions res = y_test args) ∧
  (let args := Demo.job 0 BaggingClassifier OLA 0 in
   ∃ rest r,
     process_selection args σ
     = ([] ++ call_ds_ensemble (X_train args) (y_train args) pool OLA
           :: call_predict (Demo.Selector OLA 100) (X_test args) None
           :: rest, σ, r) ∧
     Forall (λ c, ∀ e X y, c ≠ call_predict e X y) ([] ++ rest) ∧
     ∀ res, r = inr res → res_predictions res = Some <$> X_test args).
Proof.
  split.
  - destruct (predict_sees_test_labels_only_for_oracle
                (Demo.job 0 BaggingClassifier Oracle 0) (Demo.store 0 BaggingClassifier))
      as (_ & _ & Hselector & _).
    apply (Hselector 0 "Fold_1" BaggingClassifier Oracle 70%Z []
             (Demo.store 0 BaggingClassifier) (@Trained Demo.domain <$> seq 0 100)
             (Demo.Selector Oracle 100)); by vm_compute.
  - destruct (predict_sees_test_labels_only_for_oracle
                (Demo.job 0 BaggingClassifier OLA 0) (Demo.store 0 BaggingClassifier))
      as (_ & _ & Hselector & _).
    apply (Hselector 0 "Fold_1" BaggingClassifier OLA 70%Z []
             (Demo.store 0 BaggingClassifier) (@Trained Demo.domain <$> seq 0 100)
             (Demo.Selector OLA 100)); by vm_compute.
Defined.

Lemma predictions_in_fold_order_witness :
  (∀ i, res_fold_name <$> (Demo.results 0 BaggingClassifier OLA !! i)
        = (λ _, "Fold_" +:+ pretty (i + 1)) <$> (Demo.bundles 0 BaggingClassifier !! i)) ∧
  Forall2 (λ param r, ∃ e y, predict e (X_test param) y = inr (res_predictions r))
    (Demo.bundles 0 BaggingClassifier) (Demo.results 0 BaggingClassifier OLA) ∧
  np.concatenate (res_predictions <$> Demo.results 0 BaggingClassifier OLA)
    = inr (concat (res_predictions <$> Demo.results 0 BaggingClassifier OLA)) ∧
  length (concat (res_predictions <$> Demo.results 0 BaggingClassifier OLA))
    = sum_list ((λ param, length (X_test param)) <$> Demo.bundles 0 BaggingClassifier) ∧
  (∀ activities_list agg,
    save_metrics (Demo.results 0 BaggingClassifier OLA) activities_list = inr agg →
    agg_predictions agg
    = concat (res_predictions <$> Demo.results 0 BaggingClassifier OLA)) ∧
  ∃ agg,
    save_metrics (Demo.results 0 BaggingClassifier OLA) Demo.activities = inr agg ∧
    agg_predictions agg
    = concat (res_predictions <$> Demo.results 0 BaggingClassifier OLA) ∧
    agg_folds_name agg
    = (λ i, "Fold_" +:+ pretty (i + 1))
        <$> seq 0 (length (Demo.bundles 0 BaggingClassifier)).
Proof.
  destruct (predictions_in_fold_order
              (Demo.bundles 0 BaggingClassifier) (Demo.pools 0 BaggingClassifier)
              0 BaggingClassifier OLA 0 (Demo.store 0 BaggingClassifier)
              (Demo.cell 0 BaggingClassifier OLA).1.1
              (Demo.cell 0 BaggingClassifier OLA).1.2
              (Demo.results 0 BaggingClassifier OLA))
    as (Hnames & Hfolds & Hcat & Hlen & Hguarded & Hreturns).
  - exact demo_predict_aligned.
  - by vm_compute.
  - by vm_compute.
  - by vm_compute.
  - repeat (split; [assumption|]).
    apply (Hreturns Demo.activities).
    + exact NoDup_demo_activities.
    + vm_compute. repeat constructor; lia.
Defined.

Lemma forest_baseline_witness :
  ∃ n,
    params !! 0 ≫= (.!! 1) = Some n ∧
    params_rf (Demo.job 0 BaggingClassifier RandomForestClassifier 1) = Some n ∧
    process_selection
      (set_selection 8 1 0 RandomForestClassifier BaggingClassifier 80%Z
         (nth 1 (Demo.bundles 0 BaggingClassifier) Demo.no_args))
      (Demo.store 0 BaggingClassifier)
    = process_selection (Demo.job 0 BaggingClassifier RandomForestClassifier 1)
        (Demo.store 0 BaggingClassifier) ∧
    ∃ calls r,
      process_selection (Demo.job 0 BaggingClassifier RandomForestClassifier 1)
        (Demo.store 0 BaggingClassifier)
        = (call_RandomForestClassifier n
             :: call_forest_fit n
                  (X_train (Demo.job 0 BaggingClassifier RandomForestClassifier 1))
                  (y_train (Demo.job 0 BaggingClassifier RandomForestClassifier 1))
             :: calls,
           Demo.store 0 BaggingClassifier, r) ∧
      Forall (λ c, ¬ uses_pool c) calls ∧
      (∀ ens,
         forest_fit n (X_train (Demo.job 0 BaggingClassifier RandomForestClassifier 1))
           (y_train (Demo.job 0 BaggingClassifier RandomForestClassifier 1)) = inr ens →
         head calls
         = Some (call_predict ens
                   (X_test (Demo.job 0 BaggingClassifier RandomForestClassifier 1)) None)) ∧
      (∀ res, r = inr res →
         ∃ ens,
           forest_fit n (X_train (Demo.job 0 BaggingClassifier RandomForestClassifier 1))
             (y_train (Demo.job 0 BaggingClassifier RandomForestClassifier 1)) = inr ens ∧
           predict ens (X_test (Demo.job 0 BaggingClassifier RandomForestClassifier 1)) None
           = inr (res_predictions res)).
Proof.
  apply (forest_baseline_ignores_pool
           (Demo.bundles 0 BaggingClassifier) (Demo.pools 0 BaggingClassifier) [7; 8; 9]
           0 BaggingClassifier 0
           (Demo.jobs 0 BaggingClassifier RandomForestClassifier)
           [set_selection 7 0 0 RandomForestClassifier BaggingClassifier 70%Z
              (nth 0 (Demo.bundles 0 BaggingClassifier) Demo.no_args);
            set_selection 8 1 0 RandomForestClassifier BaggingClassifier 80%Z
              (nth 1 (Demo.bundles 0 BaggingClassifier) Demo.no_args);
            set_selection 9 2 0 RandomForestClassifier BaggingClassifier 80%Z
              (nth 2 (Demo.bundles 0 BaggingClassifier) Demo.no_args)]
           1).
  - by vm_compute.
  - by vm_compute.
  - by vm_compute.
  - by vm_compute.
Defined.

Lemma fold_error_aborts_cell_witness :
  ∃ calls σ',
    Demo.cell 1 SGH METADES = (calls, σ', inl (Raised "calibration needs two classes")).
Proof.
  eexists _, _.
  apply (fold_error_aborts_cell
           (Demo.bundles 1 SGH) (Demo.pools 1 SGH) 0 SGH METADES 1
           [Demo.job 1 SGH METADES 0] (Demo.job 1 SGH METADES 1)
           [Demo.job 1 SGH METADES 2] (Demo.store 1 SGH)
           (map_list process_selection [Demo.job 1 SGH METADES 0] (Demo.store 1 SGH)).1.1
           (map_list process_selection [Demo.job 1 SGH METADES 0] (Demo.store 1 SGH)).1.2
           (match (map_list process_selection [Demo.job 1 SGH METADES 0]
                     (Demo.store 1 SGH)).2 with
            | inr rs => rs
            | inl _ => []
            end)).
  - by vm_compute.
  - by vm_compute.
  - by vm_compute.
Defined.

(** C7, as the spec has it, fails: at noise level 1 the training labels of
    the second demo fold are of one class, so its calibration raises; the
    cell then has no result set at all, and the only [predict] call of the
    run is the one of the first fold: the third fold is never evaluated. *)
Lemma failed_fold_leaves_no_result_set :
  (Demo.cell 1 SGH METADES).2 = inl (Raised "calibration needs two classes") ∧
  Demo.predict_calls (Demo.cell 1 SGH METADES).1.1 = [([0; 2; 2]%Z, None)] ∧
  length (Demo.bundles 1 SGH) = 3.
Proof. by vm_compute. Qed.

Lemma labels_absent_from_dict_witness :
  ∃ args_list,
    experiment_parameters [Demo.stray_fold] 0 Demo.labels_dict = inr args_list ∧
    Forall2 (λ fold args,
        X_train args = xTrain fold ∧ X_test args = xTest fold ∧
        y_test args = (λ x, Demo.labels_dict !! x) <$> yTest fold ∧
        Some (y_train args)
          = fmap (M := list) (λ x, Demo.labels_dict !! x) <$> (yTrains fold !! 0) ∧
        (∀ i x, yTest fold !! i = Some x → Demo.labels_dict !! x = None →
                y_test args !! i = Some None))
      [Demo.stray_fold] args_list.
Proof.
  apply (labels_absent_from_dict_become_None [Demo.stray_fold] 0 Demo.labels_dict).
  constructor; [by eexists|constructor].
Defined.

End examples.

(** * Further properties of the driver

    ** The names of the strategies *)

Section names.

Lemma split_app_sep (sep : ascii) (s1 s2 : string) :
  ∃ piece pieces,
    py.split sep (s1 +:+ String sep s2) = (piece :: pieces) ++ py.split sep s2.
Proof.
  induction s1 as [|c s1 (piece & pieces & IH)]; simpl.
  - rewrite decide_True by done. by exists EmptyString, [].
  - rewrite IH. destruct (decide (c = sep)).
    + by exists EmptyString, (piece :: pieces).
    + by exists (String c piece), pieces.
Qed.

Lemma split_is_cons (sep : ascii) (s : string) :
  ∃ piece pieces, py.split sep s = piece :: pieces.
Proof.
  induction s as [|c s (piece & pieces & IH)]; simpl; [by eauto|].
  rewrite IH. destruct (decide (c = sep)); eauto.
Qed.

Lemma split_absent (sep : ascii) (s : string) :
  py.absent sep s → py.split sep s = [s].
Proof.
  induction s as [|c s IH]; simpl; [done|]. intros [Hc Hs].
  rewrite decide_False by done. by rewrite IH.
Qed.

Lemma last_split_app_sep (sep : ascii) (s1 s2 : string) :
  last (py.split sep (s1 +:+ String sep s2)) = last (py.split sep s2).
Proof.
  destruct (split_app_sep sep s1 s2) as (piece & pieces & ->).
  destruct (split_is_cons sep s2) as (p & ps & ->).
  by rewrite last_app_cons.
Qed.

Lemma head_split_app_sep (sep : ascii) (s1 s2 : string) :
  py.absent sep s1 → head (py.split sep (s1 +:+ String sep s2)) = Some s1.
Proof.
  induction s1 as [|c s1 IH]; simpl.
  - by rewrite decide_True.
  - intros [Hc Hs]. rewrite decide_False by done. specialize (IH Hs).
    destruct (py.split sep (s1 +:+ String sep s2)); by simplify_eq/=.
Qed.

Lemma absent_app (c : ascii) (s1 s2 : string) :
  py.absent c (s1 +:+ s2) ↔ py.absent c s1 ∧ py.absent c s2.
Proof. induction s1 as [|c' s1 IH]; simpl; [tauto|]. rewrite IH. tauto. Qed.

Lemma Forall_absent_split (c sep : ascii) (s : string) :
  c = sep ∨ py.absent c s → Forall (py.absent c) (py.split sep s).
Proof.
  induction s as [|c' s IH]; simpl; intros Hc.
  - by repeat constructor.
  - assert (Forall (py.absent c) (py.split sep s)) as Hs.
    { apply IH. destruct Hc as [?|[_ ?]]; auto. }
    destruct (decide (c' = sep)) as [->|Hne].
    + by constructor.
    + destruct (py.split sep s) as [|piece pieces]; simpl.
      * repeat constructor. destruct Hc as [->|[? _]]; congruence.
      * apply Forall_cons in Hs as [Hp Hps]. constructor; [|done]. simpl.
        split; [|done]. destruct Hc as [->|[? _]]; congruence.
Qed.

(** X1.  The name of a strategy.  When the text of a strategy ends in a
    dotted path, then the name, then a quote and a rest without dots (as
    the text of a class does: [<class 'package.module.Name'>]), the name
    [save_metrics] and [__main__] extract is the last component of the
    path: what stands after the last dot and before the next quote. *)
Theorem method_name_is_the_last_component (path name rest : string) :
  py.absent "." name → py.absent "'" name → py.absent "." rest →
  method_name (path +:+ String "." (name +:+ String "'" rest)) = name.
Proof.
  intros Hdot Hquote Hrest. unfold method_name.
  rewrite last_split_app_sep.
  rewrite (split_absent "." (name +:+ String "'" rest)).
  - rewrite last_singleton. cbn -[py.split String.append].
    by rewrite head_split_app_sep.
  - apply absent_app. split; [done|]. by split.
Qed.

(** X2.  Whatever the text of the strategy, the extracted name holds no dot
    and no quote. *)
Theorem method_name_has_no_dot_no_quote (repr : string) :
  py.absent "." (method_name repr) ∧ py.absent "'" (method_name repr).
Proof.
  unfold method_name.
  destruct (split_is_cons "." repr) as (p & ps & Hsplit).
  assert (py.absent "." (default EmptyString (last (py.split "." repr)))) as Hlast.
  { pose proof (Forall_absent_split "." "." repr (or_introl eq_refl)) as Hall.
    destruct (last (py.split "." repr)) as [x|] eqn:Hx; [|done].
    rewrite Forall_forall in Hall. apply Hall. simpl.
    apply last_Some in Hx as [l' ->]. set_solver. }
  set (x := default EmptyString (last (py.split "." repr))) in *.
  pose proof (Forall_absent_split "." "'" x (or_intror Hlast)) as Hdots.
  pose proof (Forall_absent_split "'" "'" x (or_introl eq_refl)) as Hquotes.
  destruct (py.split "'" x) as [|piece pieces]; [done|]. simpl.
  apply Forall_cons in Hdots as [? _]. apply Forall_cons in Hquotes as [? _]. done.
Qed.

(** X3.  A text without dot and quote is its own name: the imbalance
    strategy [None] that [__main__] passes is filed under [None]. *)
Theorem method_name_of_plain_text (repr : string) :
  py.absent "." repr → py.absent "'" repr → method_name repr = repr.
Proof.
  intros Hdot Hquote. unfold method_name.
  rewrite (split_absent "." repr) by done. rewrite last_singleton. cbn -[py.split].
  by rewrite split_absent.
Qed.

End names.

(** ** The bundles of the folds *)

Section more_bundles.
Context `{Dom : Domain} `{Lib : !Library}.

Lemma bind_getitem_None {A B} key (k : A → M B) σ :
  bind (getitem key None) k σ = ([], σ, inl (KeyError key)).
Proof. done. Qed.

(** X5.  Fresh bundles hold the data only.  The bundles
    [experiment_parameters] returns keep one numeric label per raw label
    (a label the dictionary lacks keeps its position), and hold no entry
    besides the four data arrays: handed to [process_generation] or to
    [process_selection] as they are, they raise the [KeyError] of the first
    entry read, before any library is called. *)
Theorem fresh_bundles_hold_the_data_only (folds : list Fold) (noise_level : nat)
    (labels_dict : gmap string Z) (args_list : list Args) :
  experiment_parameters folds noise_level labels_dict = inr args_list →
  Forall2 (λ fold args,
      length (y_test args) = length (yTest fold) ∧
      (∀ y, yTrains fold !! noise_level = Some y → length (y_train args) = length y) ∧
      (∀ σ, process_generation args σ = ([], σ, inl (KeyError "gen_method"))) ∧
      (∀ σ, process_selection args σ = ([], σ, inl (KeyError "pool_clf"))))
    folds args_list.
Proof.
  unfold experiment_parameters. revert args_list.
  induction folds as [|fold folds IH]; intros args_list Hrun; simpl in Hrun.
  - injection Hrun as <-. constructor.
  - destruct (yTrains fold !! noise_level) as [y|] eqn:Hy; [|done]. simpl in Hrun.
    destruct (res_mapM _ folds) as [e|rest] eqn:Hrest; [done|]. simpl in Hrun.
    injection Hrun as <-. constructor; [|by apply IH]. simpl.
    rewrite !length_fmap. split; [done|]. split; [|done].
    intros y' Hy'. rewrite Hy in Hy'. by injection Hy' as <-.
Qed.

(** X6.  The encoding of the labels loses nothing.  When the dictionary
    gives different numbers to different labels, two positions of a
    bundle's test or training labels that hold the same number hold the
    same raw label in the fold. *)
Theorem label_encoding_loses_nothing (folds : list Fold) (noise_level : nat)
    (labels_dict : gmap string Z) (args_list : list Args) :
  (∀ a b v, labels_dict !! a = Some v → labels_dict !! b = Some v → a = b) →
  experiment_parameters folds noise_level labels_dict = inr args_list →
  Forall2 (λ fold args,
      (∀ i j v, y_test args !! i = Some (Some v) → y_test args !! j = Some (Some v) →
                yTest fold !! i = yTest fold !! j ∧ is_Some (yTest fold !! i)) ∧
      (∃ y, yTrains fold !! noise_level = Some y ∧
         ∀ i j v, y_train args !! i = Some (Some v) → y_train args !! j = Some (Some v) →
                  y !! i = y !! j ∧ is_Some (y !! i)))
    folds args_list.
Proof.
  intros Hinj. unfold experiment_parameters. revert args_list.
  assert (∀ (raw : list string) i j v,
            ((λ x, labels_dict !! x) <$> raw) !! i = Some (Some v) →
            ((λ x, labels_dict !! x) <$> raw) !! j = Some (Some v) →
            raw !! i = raw !! j ∧ is_Some (raw !! i)) as Hraw.
  { intros raw i j v Hi Hj. rewrite list_lookup_fmap in Hi, Hj.
    destruct (raw !! i) as [a|]; [|done].
    destruct (raw !! j) as [b|]; [|done]. simpl in *.
    split; [|by eauto]. f_equal. eapply Hinj; by simplify_eq. }
  induction folds as [|fold folds IH]; intros args_list Hrun; simpl in Hrun.
  - injection Hrun as <-. constructor.
  - destruct (yTrains fold !! noise_level) as [y|] eqn:Hy; [|done]. simpl in Hrun.
    destruct (res_mapM _ folds) as [e|rest] eqn:Hrest; [done|]. simpl in Hrun.
    injection Hrun as <-. constructor; [|by apply IH]. simpl.
    split; [by apply Hraw|]. exists y. split; [done|]. by apply Hraw.
Qed.

(** ** The entries of a bundle *)

(** X7.  An incomplete bundle.  [process_selection] reads the entries
    [pool_clf], [fold_name], [gen_method], [ds_method] and [params] in this
    order, [process_generation] the entries [gen_method] and [imb_method]:
    the first one the bundle lacks is a [KeyError] that names it, raised
    before any library is called and with the store as it was. *)
Theorem incomplete_bundle_raises_KeyError (args : Args) σ :
  (pool_clf args = None →
   process_selection args σ = ([], σ, inl (KeyError "pool_clf"))) ∧
  (is_Some (pool_clf args) → fold_name args = None →
   process_selection args σ = ([], σ, inl (KeyError "fold_name"))) ∧
  (is_Some (pool_clf args) → is_Some (fold_name args) → gen_method args = None →
   process_selection args σ = ([], σ, inl (KeyError "gen_method"))) ∧
  (is_Some (pool_clf args) → is_Some (fold_name args) → is_Some (gen_method args) →
   ds_method args = None →
   process_selection args σ = ([], σ, inl (KeyError "ds_method"))) ∧
  (is_Some (pool_clf args) → is_Some (fold_name args) → is_Some (gen_method args) →
   is_Some (ds_method args) → params_rf args = None →
   process_selection args σ = ([], σ, inl (KeyError "params"))) ∧
  (gen_method args = None →
   process_generation args σ = ([], σ, inl (KeyError "gen_method"))) ∧
  (is_Some (gen_method args) → imb_method args = None →
   process_generation args σ = ([], σ, inl (KeyError "imb_method"))).
Proof.
  unfold process_selection, process_generation.
  repeat split; repeat (intros [? ->]); intros ->;
    by rewrite ?bind_getitem_Some, bind_getitem_None.
Qed.

(** ** Pool generation *)

(** X8.  Resampling comes first.  With an imbalance strategy, the training
    data are resampled before anything else: when the resampling raises, no
    pool is generated and the store is as it was; when it returns, the pool
    is generated from the resampled data (100 members over a perceptron
    with [max_iter=1000], [n_jobs=-1]), not from the data of the bundle,
    and stored as a new object. *)
Theorem resampling_comes_first (args : Args) gen imb σ :
  gen_method args = Some gen → imb_method args = Some (Some imb) →
  (∀ e, balance_dataset (X_train args) (y_train args) imb = inl e →
     process_generation args σ
     = ([call_balance_dataset (X_train args) (y_train args) imb], σ, inl e)) ∧
  (∀ X y, balance_dataset (X_train args) (y_train args) imb = inr (X, y) →
     calls_of (process_generation args) σ
     = [call_balance_dataset (X_train args) (y_train args) imb;
        call_gen_ensemble X y gen (mkPerceptron 1000 (-1)) 100] ∧
     ∀ members, gen_ensemble X y gen (mkPerceptron 1000 (-1)) 100 = inr members →
       process_generation args σ
       = ([call_balance_dataset (X_train args) (y_train args) imb;
           call_gen_ensemble X y gen (mkPerceptron 1000 (-1)) 100],
          σ ++ [Trained <$> members], inr (length σ))).
Proof.
  intros Hgen Himb. unfold calls_of, process_generation. rewrite Hgen, Himb.
  rewrite !bind_getitem_Some. split.
  - intros e He. unfold bind, ext. by rewrite He.
  - intros X y Hb. unfold bind, ext, new_list. rewrite Hb. simpl.
    destruct (gen_ensemble X y gen _ _) as [e|ms]; simpl; [split; [done|]|split; [done|]];
      intros members [= <-]. done.
Qed.

Lemma process_generation_inr (args : Args) σ c σ' l :
  process_generation args σ = (c, σ', inr l) →
  ∃ gen imb X y members,
    gen_method args = Some gen ∧ imb_method args = Some imb ∧
    match imb with
    | Some i => balance_dataset (X_train args) (y_train args) i
    | None => inr (X_train args, y_train args)
    end = inr (X, y) ∧
    gen_ensemble X y gen (mkPerceptron 1000 (-1)) 100 = inr members ∧
    l = length σ ∧ σ' = σ ++ [Trained <$> members].
Proof.
  unfold process_generation. intros Hrun.
  apply bind_inr_inv in Hrun as (? & ? & gen & ? & Hgen & Hrun & ->).
  apply getitem_inr in Hgen as (Hgen & -> & ->).
  apply bind_inr_inv in Hrun as (? & ? & imb & ? & Himb & Hrun & ->).
  apply getitem_inr in Himb as (Himb & -> & ->).
  apply bind_inr_inv in Hrun as (? & ? & [X y] & ? & Hbal & Hrun & ->).
  apply bind_inr_inv in Hrun as (? & ? & members & ? & Hpool & Hrun & ->).
  apply ext_inr in Hpool as (Hpool & -> & ->).
  exists gen, imb, X, y, members. split; [done|]. split; [done|].
  destruct imb as [i|].
  - apply ext_inr in Hbal as (Hbal & -> & ->).
    unfold new_list in Hrun. by simplify_eq.
  - apply ret_inr in Hbal as (Hbal & -> & ->).
    unfold new_list in Hrun. by simplify_eq.
Qed.

Lemma process_generation_inl (args : Args) σ c σ' e :
  process_generation args σ = (c, σ', inl e) → σ' = σ.
Proof.
  unfold process_generation, bind, getitem, ret, raise, ext, new_list.
  destruct (gen_method args), (imb_method args) as [[imb|]|]; simpl;
    repeat match goal with
    | |- context [match ?x with inl _ => _ | inr _ => _ end] => destruct x as [?|[??]]
    | |- context [match ?x with inl _ => _ | inr _ => _ end] => destruct x
    end; simpl; by intros [=].
Qed.

Lemma map_process_generation_inr (bundles : list Args) σ c σ' pools :
  map_list process_generation bundles σ = (c, σ', inr pools) →
  pools = seq (length σ) (length bundles) ∧
  ∃ new, σ' = σ ++ new ∧
    Forall2 (λ args stored, ∃ gen imb X y members,
        gen_method args = Some gen ∧ imb_method args = Some imb ∧
        match imb with
        | Some i => balance_dataset (X_train args) (y_train args) i
        | None => inr (X_train args, y_train args)
        end = inr (X, y) ∧
        gen_ensemble X y gen (mkPerceptron 1000 (-1)) 100 = inr members ∧
        stored = Trained <$> members) bundles new.
Proof.
  revert σ c pools.
  induction bundles as [|args bundles IH]; intros σ c pools Hrun; simpl in Hrun.
  - apply ret_inr in Hrun as (-> & -> & ->). split; [done|].
    exists []. by rewrite app_nil_r.
  - apply bind_inr_inv in Hrun as (c1 & σ1 & l & c2 & Hargs & Hrun & ->).
    apply bind_inr_inv in Hrun as (c3 & σ3 & ls & c4 & Hrest & Hrun & ->).
    apply ret_inr in Hrun as (-> & -> & ->).
    apply process_generation_inr in Hargs
      as (gen & imb & X & y & members & Hgen & Himb & Hbal & Hpool & -> & ->).
    apply IH in Hrest as (-> & new & -> & Hnew).
    split.
    + simpl. f_equal. rewrite length_app. simpl. f_equal. lia.
    + exists ((Trained <$> members) :: new). split; [by rewrite <- app_assoc|].
      constructor; [|done]. by exists gen, imb, X, y, members.
Qed.

(** X9.  One pool per fold.  When the generation of the pools of a cell
    returns, it returns as many pools as there are folds, in the order of
    the folds; they are new objects, one after the other behind the objects
    the store held, which are left as they were; the pool of a fold is what
    [gen_ensemble] returned for the training data of the fold (resampled
    when an imbalance strategy is given), and the bundles keep their
    data. *)
Theorem one_pool_per_fold parameters gen imb σ calls σ' generation pools :
  experiment_generation parameters gen imb σ = (calls, σ', inr (generation, pools)) →
  pools = seq (length σ) (length parameters) ∧
  Forall2 same_data parameters generation ∧
  ∃ new, σ' = σ ++ new ∧
    Forall2 (λ param stored, ∃ X y members,
        match imb with
        | Some i => balance_dataset (X_train param) (y_train param) i
        | None => inr (X_train param, y_train param)
        end = inr (X, y) ∧
        gen_ensemble X y gen (mkPerceptron 1000 (-1)) 100 = inr members ∧
        stored = Trained <$> members) parameters new.
Proof.
  unfold experiment_generation. intros Hrun.
  apply bind_inr_inv in Hrun as (c1 & σ1 & ls & c2 & Hmap & Hrun & ->).
  apply ret_inr in Hrun as (Heq & -> & ->). injection Heq as -> ->.
  apply map_process_generation_inr in Hmap as (-> & new & -> & Hnew).
  rewrite length_fmap. split; [done|]. split.
  { apply Forall2_fmap_r, Forall_Forall2_diag, Forall_forall. by intros param _. }
  exists new. split; [done|].
  apply Forall2_fmap_l in Hnew. eapply Forall2_impl; [exact Hnew|].
  intros param stored (g & i & X & y & members & Hg & Hi & Hbal & Hpool & ->).
  simpl in *. simplify_eq. by exists X, y, members.
Qed.

(** X10.  A fold whose generation raises.  When the generation of the pool
    of a fold raises, after the pools of the folds before it have been
    generated, [experiment_generation] raises that exception and returns no
    pool: the pools of the earlier folds stay in the store as new objects
    nobody holds, and no pool is generated for the later folds. *)
Theorem generation_stops_at_first_failure parameters gen imb before param after
    σ c1 σ1 pools c2 σ2 e :
  parameters = before ++ param :: after →
  map_list process_generation (set_generation gen imb <$> before) σ = (c1, σ1, inr pools) →
  process_generation (set_generation gen imb param) σ1 = (c2, σ2, inl e) →
  experiment_generation parameters gen imb σ = (c1 ++ c2, σ2, inl e) ∧
  ∃ new, σ2 = σ ++ new ∧ length new = length before.
Proof.
  intros Hparams Hbefore Hparam. split.
  - by eapply experiment_generation_raises.
  - apply process_generation_inl in Hparam as ->.
    apply map_process_generation_inr in Hbefore as (_ & new & -> & Hnew).
    exists new. split; [done|].
    apply Forall2_length in Hnew. by rewrite length_fmap in Hnew.
Qed.

End more_bundles.

(** ** The table of tree numbers and the folds of a cell *)

Section more_cell.
Context `{Dom : Domain} `{Lib : !Library}.

Lemma params_lookup_Some iteration f :
  iteration < 5 → f < 6 → is_Some (params !! iteration ≫= (.!! f)).
Proof.
  intros Hi Hf.
  do 5 (destruct iteration as [|iteration]; [do 6 (destruct f as [|f]; [by eexists|]); lia|]).
  lia.
Qed.

Lemma params_lookup_None iteration f :
  5 ≤ iteration ∨ 6 ≤ f → params !! iteration ≫= (.!! f) = None.
Proof.
  intros Hout.
  do 5 (destruct iteration as [|iteration];
        [do 6 (destruct f as [|f]; [lia|]); done|]).
  done.
Qed.

Lemma make_jobs_in_bounds f parameters pool_gen iteration gen sel noise_level :
  iteration < 5 → f + length parameters `min` length pool_gen ≤ 6 →
  ∃ jobs,
    make_jobs f parameters pool_gen iteration gen sel noise_level = inr jobs ∧
    length jobs = length parameters `min` length pool_gen.
Proof.
  intros Hit. revert f pool_gen.
  induction parameters as [|param parameters IH]; intros f [|pool pool_gen] Hlen;
    cbn [make_jobs length Nat.min] in *; try by eexists.
  destruct (params_lookup_Some iteration f) as [n Hn]; [lia..|]. rewrite Hn.
  destruct (IH (S f) pool_gen) as (jobs & -> & Hjobs); [lia|].
  simpl. eexists. split; [done|]. simpl. by rewrite Hjobs.
Qed.

Lemma make_jobs_out_of_bounds f parameters pool_gen iteration gen sel noise_level :
  0 < length parameters `min` length pool_gen →
  5 ≤ iteration ∨ 6 < f + length parameters `min` length pool_gen →
  make_jobs f parameters pool_gen iteration gen sel noise_level = inl IndexError.
Proof.
  revert f pool_gen.
  induction parameters as [|param parameters IH]; intros f [|pool pool_gen] Hpos Hout;
    cbn [make_jobs length Nat.min] in *; try lia.
  destruct (params !! iteration ≫= (.!! f)) as [n|] eqn:Hn; [|done].
  rewrite IH; [done| |].
  - destruct (decide (5 ≤ iteration ∨ 6 ≤ f)) as [Hbad|Hok].
    + by rewrite params_lookup_None in Hn.
    + lia.
  - destruct (decide (5 ≤ iteration)); [by left|right; lia].
Qed.

Lemma make_jobs_length_min f parameters pool_gen iteration gen sel noise_level jobs :
  make_jobs f parameters pool_gen iteration gen sel noise_level = inr jobs →
  length jobs = length parameters `min` length pool_gen.
Proof.
  revert f pool_gen jobs.
  induction parameters as [|param parameters IH]; intros f [|pool pool_gen] jobs Hjobs;
    cbn [make_jobs length Nat.min] in *; simplify_eq; try done.
  destruct (params !! iteration ≫= (.!! f)) as [n|]; [|done].
  destruct (make_jobs (S f) parameters pool_gen iteration gen sel noise_level)
    as [e|jobs'] eqn:Hrest; simpl in Hjobs; simplify_eq.
  simpl. f_equal. by eapply IH.
Qed.

(** X11.  The bounds of the table of tree numbers.  The table [params] has
    5 rows (datasets) of 6 entries (folds).  For one of the first 5
    datasets and at most 6 folds every fold gets its number of trees; for a
    cell with at least one fold, a dataset index from 5 on or more than 6
    folds is an [IndexError], raised after the worker pool has been created
    and before any fold is evaluated, whatever the selection method (the
    table is read for every method, not for the forest only). *)
Theorem tree_table_bounds parameters pool_gen iteration gen sel noise_level σ :
  (iteration < 5 → length parameters `min` length pool_gen ≤ 6 →
   ∃ jobs,
     make_jobs 0 parameters pool_gen iteration gen sel noise_level = inr jobs ∧
     length jobs = length parameters `min` length pool_gen) ∧
  (0 < length parameters `min` length pool_gen →
   5 ≤ iteration ∨ 6 < length parameters `min` length pool_gen →
   experiment_selection parameters pool_gen iteration gen sel noise_level σ
   = ([call_Pool 5], σ, inl IndexError)).
Proof.
  split.
  - intros. by apply make_jobs_in_bounds.
  - intros Hpos Hout. unfold experiment_selection.
    erewrite bind_inr by reflexivity. simpl.
    erewrite bind_inl; [done|]. by rewrite make_jobs_out_of_bounds.
Qed.

(** X12.  Folds without a pool, pools without a fold.  The bundles and the
    pools are paired by [zip]: when the evaluation of a cell returns, it
    returns as many results as the shorter of the two lists has entries;
    the bundles or pools beyond are dropped without an error.  Result [i]
    is named [Fold_(i+1)] and holds the predictions for the test data of
    bundle [i]. *)
Theorem surplus_folds_are_dropped parameters pool_gen iteration gen sel noise_level
    σ calls σ' results :
  experiment_selection parameters pool_gen iteration gen sel noise_level σ
    = (calls, σ', inr results) →
  length results = length parameters `min` length pool_gen ∧
  ∀ i r, results !! i = Some r →
    res_fold_name r = "Fold_" +:+ pretty (i + 1) ∧
    ∃ param pool e,
      parameters !! i = Some param ∧ pool_gen !! i = Some pool ∧
      predict e (X_test param)
        (if decide (sel = Oracle) then Some (y_test param) else None)
      = inr (res_predictions r).
Proof.
  intros Hrun.
  apply experiment_selection_inr in Hrun as (jobs & c' & Hjobs & Hmap & ->).
  assert (Forall2 (λ job r,
            fold_name job = Some (res_fold_name r) ∧
            ∃ e, predict e (X_test job) (predict_labels job) = inr (res_predictions r))
          jobs results) as Hjr.
  { eapply map_list_inr_Forall2; [|exact Hmap].
    intros job σ1 c1 σ1' r Hr.
    destruct (process_selection_inr _ _ _ _ _ Hr) as (Hname & _ & e & _ & He). eauto. }
  split.
  - rewrite <- (Forall2_length _ _ _ Hjr). by eapply make_jobs_length_min.
  - intros i r Hr.
    destruct (Forall2_lookup_r _ _ _ _ _ Hjr Hr) as (job & Hjob & Hname & e & He).
    destruct (make_jobs_lookup _ _ _ _ _ _ _ _ _ _ Hjobs Hjob)
      as (param & pool & n & Hparam & Hpool & _ & ->).
    simpl in Hname. split; [by simplify_eq|].
    exists param, pool, e. split; [done|]. split; [done|].
    unfold predict_labels in He. simpl in He.
    destruct (decide (sel = Oracle)) as [->|Hne].
    + by rewrite decide_True in He.
    + by rewrite decide_False in He by congruence.
Qed.

(** X13.  A cell without folds.  With no bundle or no pool, the evaluation
    of a cell creates and closes the worker pool and returns no result,
    without reading the table of tree numbers; the aggregation of no result
    raises [ValueError] (there is nothing to concatenate). *)
Theorem cell_without_folds parameters pool_gen iteration gen sel noise_level σ
    (activities_list : list string) :
  parameters = [] ∨ pool_gen = [] →
  experiment_selection parameters pool_gen iteration gen sel noise_level σ
  = ([call_Pool 5; call_pool_close], σ, inr []) ∧
  save_metrics [] activities_list = inl ValueError.
Proof.
  intros Hempty. split; [|done].
  unfold experiment_selection.
  assert (make_jobs 0 parameters pool_gen iteration gen sel noise_level = inr []) as Hjobs.
  { destruct Hempty as [-> | ->]; [done|]. by destruct parameters. }
  unfold bind, ext. by rewrite Hjobs.
Qed.

End more_cell.

(** ** The store of the pools *)

Section frame.
Context `{Dom : Domain} `{Lib : !Library}.

Lemma store_free_ret {A} (a : A) : store_free (ret a).
Proof. by exists [], (inr a). Qed.

Lemma store_free_ext {A} c (r : Res A) : store_free (ext c r).
Proof. by exists [c], r. Qed.

Lemma store_free_bind {A B} (m : M A) (k : A → M B) :
  store_free m → (∀ a, store_free (k a)) → store_free (bind m k).
Proof.
  intros (c1 & [e|a] & Hm) Hk.
  - exists c1, (inl e). intros σ. unfold bind. by rewrite Hm.
  - destruct (Hk a) as (c2 & r & Hka). exists (c1 ++ c2), r.
    intros σ. unfold bind. by rewrite Hm, Hka.
Qed.

Lemma store_free_process_metrics y p : store_free (process_metrics y p).
Proof.
  unfold process_metrics.
  repeat (apply store_free_bind; [apply store_free_ext|intros ?]).
  apply store_free_ret.
Qed.

Lemma bind_store_free {A B} (m : M A) (k : A → M B) (P : list (list Estimator) → Prop) :
  (∃ calls new r, ∀ σ, P σ → m σ = (calls, σ ++ new, r)) →
  (∀ a, store_free (k a)) →
  ∃ calls new r, ∀ σ, P σ → bind m k σ = (calls, σ ++ new, r).
Proof.
  intros (c1 & new & [e|a] & Hm) Hk.
  - exists c1, new, (inl e). intros σ Hσ. unfold bind. by rewrite Hm.
  - destruct (Hk a) as (c2 & r & Hka). exists (c1 ++ c2), new, r.
    intros σ Hσ. unfold bind. by rewrite Hm, Hka.
Qed.

(** The calibration loop, whatever the calibrations do: it fills the new
    list and nothing else. *)
Lemma calibration_loop_any X y (members : list Estimator) :
  ∃ calls done r, ∀ (σ : list (list Estimator)) acc,
    for_each members (λ clf,
      ext (call_CalibratedClassifierCV clf "prefit") (inr ()) ;;
      ext (call_calibrated_fit clf "prefit" X y)
          (match calibration_error clf "prefit" X y with
           | Some e => inl e
           | None => inr ()
           end) ;;
      list_append (length σ) (CalibratedClassifierCV clf "prefit" (Some (X, y))))
      (σ ++ [acc])
    = (calls, σ ++ [acc ++ done], r).
Proof.
  induction members as [|clf members (calls & done & r & IH)].
  - exists [], [], (inr ()). intros σ acc. simpl. by rewrite app_nil_r.
  - destruct (calibration_error clf "prefit" X y) as [e|] eqn:Herr.
    + exists (calibration_calls X y clf), [], (inl e). intros σ acc. simpl.
      unfold bind, ext. rewrite Herr. simpl. by rewrite app_nil_r.
    + exists (calibration_calls X y clf ++ calls), (calibrated X y clf :: done), r.
      intros σ acc. simpl.
      unfold bind at 1. unfold bind at 1. unfold ext at 1.
      unfold bind at 1. unfold ext at 1. rewrite Herr.
      unfold list_append at 1. simpl.
      rewrite alter_app_r_alt by lia. rewrite Nat.sub_diag. simpl.
      rewrite IH. by rewrite <- app_assoc.
Qed.

Lemma selection_ensemble_any X y l pool (method : Method) (probabilistic : bool) :
  ∃ calls new r, ∀ σ : list (list Estimator), σ !! l = Some pool →
    (let! pool_clf :=
       if probabilistic then calibrate_pool X y l else ret l in
     let! pool := list_members pool_clf in
     ext (call_ds_ensemble X y pool method) (ds_ensemble X y pool method)) σ
    = (calls, σ ++ new, r).
Proof.
  destruct probabilistic.
  - destruct (calibration_loop_any X y pool) as (calls & done & [e|[]] & Hloop).
    + exists calls, [done], (inl e). intros σ Hl.
      unfold calibrate_pool.
      unfold bind at 1. unfold bind at 1. unfold new_list at 1.
      unfold bind at 1. unfold list_members at 1.
      rewrite lookup_app_l by (by eapply lookup_lt_Some). rewrite Hl.
      unfold bind at 1. by rewrite (Hloop σ []).
    + exists (calls ++ [call_ds_ensemble X y done method]), [done],
        (ds_ensemble X y done method).
      intros σ Hl. unfold calibrate_pool.
      unfold bind at 1. unfold bind at 1. unfold new_list at 1.
      unfold bind at 1. unfold list_members at 1.
      rewrite lookup_app_l by (by eapply lookup_lt_Some). rewrite Hl.
      unfold bind at 1. rewrite (Hloop σ []). unfold ret at 1. simpl.
      unfold bind at 1. unfold list_members at 1.
      rewrite lookup_app_r, Nat.sub_diag by lia. simpl.
      by rewrite app_nil_r.
  - exists [call_ds_ensemble X y pool method], [], (ds_ensemble X y pool method).
    intros σ Hl. unfold bind, ret, list_members, ext. rewrite Hl.
    by rewrite app_nil_r.
Qed.

Lemma process_selection_any (args : Args) l pool :
  pool_clf args = Some l →
  ∃ calls new r, ∀ σ : list (list Estimator), σ !! l = Some pool →
    process_selection args σ = (calls, σ ++ new, r).
Proof.
  intros Hl. unfold process_selection. rewrite Hl.
  destruct (fold_name args) as [name|];
    [|exists [], [], (inl (KeyError "fold_name")); intros; by rewrite app_nil_r].
  destruct (gen_method args) as [gen|];
    [|exists [], [], (inl (KeyError "gen_method")); intros; by rewrite app_nil_r].
  destruct (ds_method args) as [method|];
    [|exists [], [], (inl (KeyError "ds_method")); intros; by rewrite app_nil_r].
  destruct (params_rf args) as [n|];
    [|exists [], [], (inl (KeyError "params")); intros; by rewrite app_nil_r].
  assert (∀ ens : ensemble, store_free (
    let! predictions :=
      if decide (method = Oracle) then
        ext (call_predict ens (X_test args) (Some (y_test args)))
            (predict ens (X_test args) (Some (y_test args)))
      else
        ext (call_predict ens (X_test args) None) (predict ens (X_test args) None) in
    let! conf_matrix :=
      ext (call_confusion_matrix_score (y_test args) predictions)
          (inr (confusion_matrix_score (y_test args) predictions)) in
    let! metrics := process_metrics (y_test args) predictions in
    ret {| res_fold_name := name; res_conf_matrix := conf_matrix;
           res_metrics := metrics; res_predictions := predictions |})) as Htail.
  { intros ens.
    apply store_free_bind; [case_decide; apply store_free_ext|intros predictions].
    apply store_free_bind; [apply store_free_ext|intros cm].
    apply store_free_bind; [apply store_free_process_metrics|intros metrics].
    apply store_free_ret. }
  cut (∃ calls new r, ∀ σ : list (list Estimator), σ !! l = Some pool →
         bind
           (if decide (method = RandomForestClassifier) then
              ext (call_RandomForestClassifier n) (inr ()) ;;
              let! ensemble := ext (call_forest_fit n (X_train args) (y_train args))
                                   (forest_fit n (X_train args) (y_train args)) in
              let! predictions := ext (call_predict ensemble (X_test args) None)
                                      (predict ensemble (X_test args) None) in
              ret ensemble
            else
              let! pool_clf :=
                if decide (gen = SGH ∧ (method = METADES ∨ method = KNOP)) then
                  calibrate_pool (X_train args) (y_train args) l
                else ret l in
              let! pool := list_members pool_clf in
              ext (call_ds_ensemble (X_train args) (y_train args) pool method)
                  (ds_ensemble (X_train args) (y_train args) pool method))
           (λ ens,
              let! predictions :=
                if decide (method = Oracle) then
                  ext (call_predict ens (X_test args) (Some (y_test args)))
                      (predict ens (X_test args) (Some (y_test args)))
                else
                  ext (call_predict ens (X_test args) None)
                      (predict ens (X_test args) None) in
              let! conf_matrix :=
                ext (call_confusion_matrix_score (y_test args) predictions)
                    (inr (confusion_matrix_score (y_test args) predictions)) in
              let! metrics := process_metrics (y_test args) predictions in
              ret {| res_fold_name := name; res_conf_matrix := conf_matrix;
                     res_metrics := metrics; res_predictions := predictions |}) σ
         = (calls, σ ++ new, r)).
  { intros (calls & new & r & Hrun). exists calls, new, r. intros σ Hσ.
    rewrite !bind_getitem_Some. by apply Hrun. }
  apply (bind_store_free _ _ (λ σ, σ !! l = Some pool)); [|exact Htail].
  destruct (decide (method = RandomForestClassifier)) as [Hrf|Hrf].
  - assert (store_free (
      ext (call_RandomForestClassifier n) (inr ()) ;;
      let! ensemble := ext (call_forest_fit n (X_train args) (y_train args))
                           (forest_fit n (X_train args) (y_train args)) in
      let! predictions := ext (call_predict ensemble (X_test args) None)
                              (predict ensemble (X_test args) None) in
      ret ensemble)) as (calls & r & Hrun).
    { apply store_free_bind; [apply store_free_ext|intros _].
      apply store_free_bind; [apply store_free_ext|intros ens].
      apply store_free_bind; [apply store_free_ext|intros _].
      apply store_free_ret. }
    exists calls, [], r. intros σ _. by rewrite app_nil_r.
  - destruct (decide (gen = SGH ∧ (method = METADES ∨ method = KNOP)));
      [apply (selection_ensemble_any _ _ _ _ _ true)
      |apply (selection_ensemble_any _ _ _ _ _ false)].
Qed.

Lemma map_process_selection_any (jobs : list Args) (pools : list (list Estimator))
    (ls : list nat) :
  Forall2 (λ job l, pool_clf job = Some l) jobs ls →
  length pools = length ls →
  ∃ calls new r, ∀ σ : list (list Estimator),
    Forall2 (λ l pool, σ !! l = Some pool) ls pools →
    map_list process_selection jobs σ = (calls, σ ++ new, r).
Proof.
  intros Hjobs. revert pools.
  induction Hjobs as [|job l jobs ls Hl Hjobs IH]; intros pools Hlen.
  - exists [], [], (inr []). intros σ _. simpl. unfold ret. by rewrite app_nil_r.
  - destruct pools as [|pool pools]; [done|]. simpl in Hlen.
    destruct (process_selection_any job l pool Hl) as (c1 & new1 & r1 & Hjob).
    destruct (IH pools) as (c2 & new2 & r2 & Hrest); [lia|].
    destruct r1 as [e|res].
    + exists c1, new1, (inl e). intros σ Hσ. apply Forall2_cons in Hσ as [Hσ _].
      simpl. unfold bind. by rewrite Hjob.
    + exists (c1 ++ c2), (new1 ++ new2),
        (match r2 with inl e => inl e | inr rs => inr (res :: rs) end).
      intros σ Hσ. apply Forall2_cons in Hσ as [Hσ Hσs].
      simpl. unfold bind at 1. rewrite Hjob by done.
      unfold bind at 1. rewrite Hrest.
      * destruct r2; simpl; unfold ret; by rewrite ?app_nil_r, app_assoc.
      * eapply Forall2_impl; [exact Hσs|]. intros l' pool' Hl'. simpl in *.
        rewrite lookup_app_l; [done|]. by eapply lookup_lt_Some.
Qed.

Lemma make_jobs_pools f parameters pool_gen iteration gen sel noise_level jobs :
  make_jobs f parameters pool_gen iteration gen sel noise_level = inr jobs →
  Forall2 (λ job l, pool_clf job = Some l) jobs (take (length jobs) pool_gen).
Proof.
  revert f pool_gen jobs.
  induction parameters as [|param parameters IH]; intros f [|pool pool_gen] jobs Hjobs;
    cbn [make_jobs] in Hjobs; simplify_eq; try by constructor.
  destruct (params !! iteration ≫= (.!! f)) as [n|]; [|done].
  destruct (make_jobs (S f) parameters pool_gen iteration gen sel noise_level)
    as [e|jobs'] eqn:Hrest; simpl in Hjobs; simplify_eq.
  simpl. constructor; [done|]. by eapply IH.
Qed.

(** X14.  The evaluation of a cell only adds to the store.  Given the
    members of the pools of a cell, there are calls, new objects and an
    outcome such that, from every store that holds these pools, the
    evaluation of the cell makes these calls, ends in this outcome (results
    or exception), and leaves the store it found followed by the new
    objects (the lists of calibrated members): no object that was there,
    the pools included, is changed or removed, and what else the store
    holds (the lists earlier cells left) has no effect.  So the pools
    generated once serve every selection method in turn. *)
Theorem evaluation_only_adds_to_the_store parameters pool_gen iteration gen sel
    noise_level (pools : list (list Estimator)) :
  ∃ calls new r, ∀ σ : list (list Estimator),
    Forall2 (λ l pool, σ !! l = Some pool) pool_gen pools →
    experiment_selection parameters pool_gen iteration gen sel noise_level σ
    = (calls, σ ++ new, r).
Proof.
  destruct (decide (length pools = length pool_gen)) as [Hlen|Hlen]; last first.
  { exists [], [], (inl ValueError). intros σ Hσ.
    apply Forall2_length in Hσ. by destruct Hlen. }
  unfold experiment_selection.
  destruct (make_jobs 0 parameters pool_gen iteration gen sel noise_level)
    as [e|jobs] eqn:Hjobs.
  { exists [call_Pool 5], [], (inl e). intros σ _.
    unfold bind, ext. simpl. by rewrite app_nil_r. }
  destruct (map_process_selection_any jobs (take (length jobs) pools)
              (take (length jobs) pool_gen)) as (calls & new & r & Hrun).
  { by eapply make_jobs_pools. }
  { rewrite !length_take. lia. }
  exists (call_Pool 5 :: calls ++
            match r with inr _ => [call_pool_close] | inl _ => [] end), new,
    r.
  intros σ Hσ. unfold bind at 1. unfold ext at 1.
  unfold bind at 1. unfold bind at 1.
  rewrite Hrun by (by apply Forall2_take).
  destruct r as [e|rs]; simpl; [|done].
  by rewrite (right_id_L [] (++)).
Qed.

End frame.

(** ** The paths of a fold evaluation *)

Section paths.
Context `{Dom : Domain} `{Lib : !Library}.

Ltac case_outcomes :=
  repeat match goal with
  | |- context [match ?x with inl _ => _ | inr _ => _ end] => destruct x eqn:?
  end.

Lemma calibration_loop_fails X y (before after : list Estimator) clf e
    (acc : list Estimator) (σ : list (list Estimator)) :
  (∀ c, c ∈ before → calibration_error c "prefit" X y = None) →
  calibration_error clf "prefit" X y = Some e →
  for_each (before ++ clf :: after) (λ clf,
    ext (call_CalibratedClassifierCV clf "prefit") (inr ()) ;;
    ext (call_calibrated_fit clf "prefit" X y)
        (match calibration_error clf "prefit" X y with
         | Some e => inl e
         | None => inr ()
         end) ;;
    list_append (length σ) (CalibratedClassifierCV clf "prefit" (Some (X, y))))
    (σ ++ [acc])
  = ((before ++ [clf]) ≫= calibration_calls X y,
     σ ++ [acc ++ (calibrated X y <$> before)], inl e).
Proof.
  revert acc. induction before as [|c before IH]; intros acc Hok Herr; simpl.
  - unfold bind, ext. rewrite Herr. simpl. by rewrite app_nil_r.
  - unfold bind at 1. unfold bind at 1. unfold ext at 1.
    unfold bind at 1. unfold ext at 1.
    rewrite (Hok c) by left. unfold list_append at 1. simpl.
    rewrite alter_app_r_alt by lia. rewrite Nat.sub_diag. simpl.
    rewrite IH by (done || intros; apply Hok; by right).
    by rewrite <- app_assoc.
Qed.

Lemma calibrate_pool_fails X y l before clf after e (σ : list (list Estimator)) :
  σ !! l = Some (before ++ clf :: after) →
  (∀ c, c ∈ before → calibration_error c "prefit" X y = None) →
  calibration_error clf "prefit" X y = Some e →
  calibrate_pool X y l σ
  = ((before ++ [clf]) ≫= calibration_calls X y,
     σ ++ [calibrated X y <$> before], inl e).
Proof.
  intros Hl Hok Herr. unfold calibrate_pool.
  unfold bind at 1. unfold new_list at 1.
  unfold bind at 1. unfold list_members at 1.
  rewrite lookup_app_l by (by eapply lookup_lt_Some).
  rewrite Hl. unfold bind at 1.
  by rewrite (calibration_loop_fails X y before after clf e [] σ Hok Herr).
Qed.

(** X15.  A calibration that raises stops the fold.  With SGH pools and
    METADES or KNOP, when the calibration of a member of the pool raises
    after the members before it have been calibrated, the evaluation of the
    fold raises that exception: its calls are the calibrations of the
    members up to the failing one, no selector is built, nothing is
    predicted, and the list of the members calibrated so far stays in the
    store as a new object; the members behind are not calibrated. *)
Theorem failed_calibration_stops_the_fold (args : Args) σ l name m n before clf after e :
  pool_clf args = Some l → fold_name args = Some name →
  gen_method args = Some SGH → ds_method args = Some m →
  m = METADES ∨ m = KNOP → params_rf args = Some n →
  σ !! l = Some (before ++ clf :: after) →
  (∀ c, c ∈ before →
     calibration_error c "prefit" (X_train args) (y_train args) = None) →
  calibration_error clf "prefit" (X_train args) (y_train args) = Some e →
  process_selection args σ
  = ((before ++ [clf]) ≫= calibration_calls (X_train args) (y_train args),
     σ ++ [calibrated (X_train args) (y_train args) <$> before], inl e).
Proof.
  intros Hl Hname Hgen Hm Hprob Hn Hpool Hok Herr.
  unfold process_selection. rewrite Hl, Hname, Hgen, Hm, Hn.
  rewrite !bind_getitem_Some.
  rewrite decide_False by (by destruct Hprob as [-> | ->]).
  rewrite decide_True by done.
  unfold bind at 1. unfold bind at 1.
  by rewrite (calibrate_pool_fails _ _ l before clf after e) by done.
Qed.

(** X16.  No calibration otherwise.  For a selection method other than the
    forest, unless the pools are SGH pools and the method is METADES or
    KNOP, the evaluation of a fold starts by building the selector from the
    members of the pool as they are stored; it calibrates nothing, hands
    the pool to no other call, and leaves the store as it was. *)
Theorem stored_pool_goes_to_the_selector (args : Args) σ l name gen m n pool :
  pool_clf args = Some l → fold_name args = Some name →
  gen_method args = Some gen → ds_method args = Some m →
  params_rf args = Some n →
  m ≠ RandomForestClassifier →
  ¬ (gen = SGH ∧ (m = METADES ∨ m = KNOP)) →
  σ !! l = Some pool →
  ∃ rest r,
    process_selection args σ
    = (call_ds_ensemble (X_train args) (y_train args) pool m :: rest, σ, r) ∧
    Forall (λ c, ¬ uses_pool c) rest.
Proof.
  intros Hl Hname Hgen Hm Hn Hrf Hprob Hpool.
  unfold process_selection. rewrite Hl, Hname, Hgen, Hm, Hn.
  rewrite !bind_getitem_Some.
  rewrite decide_False by done. rewrite decide_False by done.
  unfold bind at 1. unfold bind at 1. unfold bind at 1. unfold ret at 1.
  unfold list_members at 1. rewrite Hpool. unfold ext at 1.
  destruct (ds_ensemble (X_train args) (y_train args) pool m) as [e|ens].
  { eexists [], _. by split. }
  unfold process_metrics, bind, ret, ext. cbn.
  case_decide; case_outcomes; eexists _, _; (split; [reflexivity|]);
    repeat constructor; by intros [].
Qed.

(** X17.  The forest predicts twice.  With the forest baseline, when the
    fit and the prediction return, the fitted forest is asked for the
    predictions of the test data twice, with the same arguments: once in
    the branch of the forest, whose answer is dropped, and once in the
    prediction phase, whose answer is the one the confusion matrix, the
    metrics and the result are made of. *)
Theorem forest_predicts_twice (args : Args) σ l name gen n ens predictions :
  pool_clf args = Some l → fold_name args = Some name →
  gen_method args = Some gen → ds_method args = Some RandomForestClassifier →
  params_rf args = Some n →
  forest_fit n (X_train args) (y_train args) = inr ens →
  predict ens (X_test args) None = inr predictions →
  ∃ rest r,
    process_selection args σ
    = ([call_RandomForestClassifier n;
        call_forest_fit n (X_train args) (y_train args);
        call_predict ens (X_test args) None;
        call_predict ens (X_test args) None;
        call_confusion_matrix_score (y_test args) predictions] ++ rest, σ, r) ∧
    Forall (λ c, ∃ metric_name, c = call_metric metric_name (y_test args) predictions)
      rest ∧
    ∀ res, r = inr res → res_predictions res = predictions.
Proof.
  intros Hl Hname Hgen Hm Hn Hfit Hpred.
  unfold process_selection. rewrite Hl, Hname, Hgen, Hm, Hn.
  rewrite !bind_getitem_Some. rewrite decide_True by done.
  destruct (decide (RandomForestClassifier = Oracle)) as [?|_]; [done|].
  unfold process_metrics, bind, ret, ext. rewrite Hfit. cbn. rewrite !Hpred. cbn.
  case_outcomes; eexists _, _; (split; [reflexivity|]);
    (split; [repeat constructor; by eexists|]); intros; by simplify_eq.
Qed.

(** The pool of workers *)

Lemma emits_process_selection_not_close args :
  emits (λ c, c ≠ call_pool_close) (process_selection args).
Proof.
  unfold process_selection.
  do 5 (apply emits_getitem_bind; intros ? _).
  apply emits_bind.
  { case_decide.
    - repeat (apply emits_bind; [by apply emits_ext|intros ?]). apply emits_ret.
    - apply emits_bind.
      + case_decide; [|apply emits_ret]. by apply emits_calibrate_pool.
      + intros l. apply emits_bind; [apply emits_list_members|intros ?].
        by apply emits_ext. }
  intros ens. apply emits_bind; [by case_decide; apply emits_ext|intros ?].
  apply emits_bind; [by apply emits_ext|intros ?].
  apply emits_bind; [by apply emits_process_metrics|intros ?]. apply emits_ret.
Qed.

(** X18.  The worker pool is closed on success only.  The evaluation of a
    cell creates the worker pool first; it closes it, as its last call,
    when it returns results; when it raises (the table of tree numbers is
    exceeded, or a fold raises), the pool is never closed. *)
Theorem pool_is_closed_only_on_success parameters pool_gen iteration gen sel
    noise_level σ :
  ∃ fold_calls σ' r,
    Forall (λ c, c ≠ call_pool_close) fold_calls ∧
    experiment_selection parameters pool_gen iteration gen sel noise_level σ
    = (call_Pool 5 :: fold_calls ++
         match r with inr _ => [call_pool_close] | inl _ => [] end, σ', r).
Proof.
  unfold experiment_selection.
  destruct (make_jobs 0 parameters pool_gen iteration gen sel noise_level)
    as [e|jobs] eqn:Hjobs.
  { exists [], σ, (inl e). split; [constructor|]. by unfold bind, ext. }
  pose proof (emits_map_list (λ c, c ≠ call_pool_close) process_selection jobs
                emits_process_selection_not_close σ) as Hcalls.
  unfold calls_of in Hcalls.
  destruct (map_list process_selection jobs σ) as [[calls σ'] r] eqn:Hmap.
  exists calls, σ', r. split; [done|].
  unfold bind at 1. unfold ext at 1. unfold bind at 1. unfold bind at 1.
  rewrite Hmap. destruct r as [e|rs]; simpl; [|done].
  by rewrite (right_id_L [] (++)).
Qed.

(** What the bundles carry from earlier cells *)

Lemma process_selection_same_data pool f noise_level sel gen n (a b : Args) :
  same_data a b →
  process_selection (set_selection pool f noise_level sel gen n a)
  = process_selection (set_selection pool f noise_level sel gen n b).
Proof.
  intros (HX & Hy & HXt & Hyt). unfold process_selection, set_selection.
  cbn [pool_clf fold_name gen_method ds_method params_rf X_train y_train X_test y_test].
  by rewrite HX, Hy, HXt, Hyt.
Qed.

Lemma process_generation_same_data gen imb (a b : Args) :
  same_data a b →
  process_generation (set_generation gen imb a)
  = process_generation (set_generation gen imb b).
Proof.
  intros (HX & Hy & HXt & Hyt). unfold process_generation, set_generation.
  cbn [gen_method imb_method X_train y_train].
  by rewrite HX, Hy.
Qed.

Lemma map_list_ext {A B} (f g : A → M B) (l l' : list A) :
  Forall2 (λ x x', f x = g x') l l' → map_list f l = map_list g l'.
Proof. induction 1 as [|x x' l l' Hx Hl IH]; simpl; [done|]. by rewrite Hx, IH. Qed.

Lemma make_jobs_same_data f parameters parameters' pool_gen iteration gen sel noise_level :
  Forall2 same_data parameters parameters' →
  match make_jobs f parameters pool_gen iteration gen sel noise_level,
        make_jobs f parameters' pool_gen iteration gen sel noise_level with
  | inr jobs, inr jobs' =>
      Forall2 (λ job job', process_selection job = process_selection job') jobs jobs'
  | inl e, inl e' => e = e'
  | _, _ => False
  end.
Proof.
  intros Hsame. revert f pool_gen.
  induction Hsame as [|a b parameters parameters' Hab Hsame IH]; intros f [|pool pool_gen];
    cbn [make_jobs]; try by constructor.
  destruct (params !! iteration ≫= (.!! f)) as [n|]; [|done].
  specialize (IH (S f) pool_gen).
  destruct (make_jobs (S f) parameters pool_gen iteration gen sel noise_level),
    (make_jobs (S f) parameters' pool_gen iteration gen sel noise_level);
    simpl; try done.
  constructor; [|done]. by apply process_selection_same_data.
Qed.

(** X19.  What earlier cells left in the bundles has no effect.  The
    bundles are updated in place and handed from cell to cell.  The
    evaluation of a cell sets every entry a fold evaluation reads, and the
    generation every entry the generation of a pool reads: two lists of
    bundles that hold the same fold data give the same calls, the same
    store and the same outcome, whatever else they hold (the pools returned
    by the generation are the same; the bundles it returns keep what they
    held besides). *)
Theorem stale_entries_are_overwritten parameters parameters' pool_gen iteration gen sel
    noise_level imb σ :
  Forall2 same_data parameters parameters' →
  experiment_selection parameters pool_gen iteration gen sel noise_level σ
  = experiment_selection parameters' pool_gen iteration gen sel noise_level σ ∧
  prod_map id (sum_map id snd) (experiment_generation parameters gen imb σ)
  = prod_map id (sum_map id snd) (experiment_generation parameters' gen imb σ).
Proof.
  intros Hsame. split.
  - unfold experiment_selection.
    pose proof (make_jobs_same_data 0 _ _ pool_gen iteration gen sel noise_level Hsame)
      as Hjobs.
    unfold bind at 1 3. unfold ext at 1 3. unfold bind at 1 3.
    destruct (make_jobs 0 parameters pool_gen iteration gen sel noise_level),
      (make_jobs 0 parameters' pool_gen iteration gen sel noise_level);
      try done; [by subst|].
    by rewrite (map_list_ext _ _ _ _ Hjobs).
  - unfold experiment_generation.
    assert (map_list process_generation (set_generation gen imb <$> parameters)
            = map_list process_generation (set_generation gen imb <$> parameters'))
      as Hmap.
    { apply map_list_ext. apply Forall2_fmap. eapply Forall2_impl; [exact Hsame|].
      intros a b Hab. by apply process_generation_same_data. }
    unfold bind. rewrite Hmap.
    by destruct (map_list process_generation _ σ) as [[c σ'] [e|ls]].
Qed.

End paths.

(** ** The order of the folds in the aggregation *)

Section order.
Context `{Dom : Domain}.

Lemma sumZ_Permutation (l l' : list Z) : l ≡ₚ l' → sumZ l = sumZ l'.
Proof.
  induction 1 as [|x l l' _ IH|x y l|l1 l2 l3 _ IH1 _ IH2];
    unfold sumZ in *; simpl; lia.
Qed.

Lemma elementwise_sum_Permutation (n : nat) (ms ms' : list Matrix) :
  Forall (square n) ms → ms ≡ₚ ms' →
  elementwise_sum n ms = elementwise_sum n ms'.
Proof.
  intros Hms Hperm.
  assert (Forall (square n) ms') as Hms' by (by rewrite <- Hperm).
  apply (matrix_eq_entries n); [by apply square_elementwise_sum..|].
  intros k j Hk Hj. rewrite !mentry_elementwise_sum by done.
  apply sumZ_Permutation. by apply fmap_Permutation.
Qed.

(** X20.  The merged matrix does not depend on the order of the folds.
    When the fold matrices of a cell fit the canonical class list, the
    aggregation of the results taken in any other order returns as well,
    with the same merged confusion matrix, cell for cell, and the same
    predictions up to their order. *)
Theorem merged_matrix_ignores_fold_order (results results' : list FoldResult)
    (activities_list : list string) :
  NoDup activities_list → results ≠ [] →
  Forall (λ r, length (res_conf_matrix r) ≤ length activities_list ∧
               Forall (λ row, length row ≤ length activities_list) (res_conf_matrix r))
    results →
  results ≡ₚ results' →
  ∃ agg agg',
    save_metrics results activities_list = inr agg ∧
    save_metrics results' activities_list = inr agg' ∧
    pd.values (agg_cm agg') = pd.values (agg_cm agg) ∧
    agg_predictions agg' ≡ₚ agg_predictions agg.
Proof.
  intros Hnd Hne Hfit Hperm.
  assert (results' ≠ []) as Hne'.
  { intros ->. by apply Permutation_nil_r in Hperm. }
  assert (Forall (λ r, length (res_conf_matrix r) ≤ length activities_list ∧
               Forall (λ row, length row ≤ length activities_list) (res_conf_matrix r))
            results') as Hfit' by (by rewrite <- Hperm).
  destruct (save_metrics_fits results activities_list Hnd Hne Hfit)
    as (agg & Hagg & _ & Hpred & Hdfs & _ & _ & Hvals).
  destruct (save_metrics_fits results' activities_list Hnd Hne' Hfit')
    as (agg' & Hagg' & _ & Hpred' & Hdfs' & _ & _ & Hvals').
  exists agg, agg'. split; [done|]. split; [done|]. split.
  - rewrite Hvals, Hvals', Hdfs, Hdfs'. f_equal.
    apply elementwise_sum_Permutation.
    + apply Forall_fmap, Forall_fmap. eapply Forall_impl; [exact Hfit'|].
      intros r [? ?]. simpl. by apply square_to_matrix, canonical_embedded.
    + by rewrite Hperm.
  - rewrite Hpred, Hpred'. by rewrite Hperm.
Qed.

End order.

(** ** The further statements on the small instance *)

Section more_examples.
#[local] Existing Instance Demo.domain.
#[local] Existing Instance Demo.library.

Lemma method_name_is_the_last_component_witness :
  method_name "<class 'sklearn.ensemble._bagging.BaggingClassifier'>"
  = "BaggingClassifier".
Proof.
  apply (method_name_is_the_last_component
           "<class 'sklearn.ensemble._bagging" "BaggingClassifier" ">");
    simpl; repeat split; discriminate.
Defined.

Lemma method_name_of_plain_text_witness : method_name "None" = "None".
Proof.
  apply (method_name_of_plain_text "None"); simpl; repeat split; discriminate.
Defined.

Lemma fresh_bundles_witness :
  Forall2 (λ fold args,
      length (y_test args) = length (yTest fold) ∧
      (∀ y, yTrains fold !! 0 = Some y → length (y_train args) = length y) ∧
      (∀ σ, process_generation args σ = ([], σ, inl (KeyError "gen_method"))) ∧
      (∀ σ, process_selection args σ = ([], σ, inl (KeyError "pool_clf"))))
    Demo.folds (Demo.parameters 0).
Proof.
  apply (fresh_bundles_hold_the_data_only Demo.folds 0 Demo.labels_dict
           (Demo.parameters 0)).
  by vm_compute.
Defined.

Lemma demo_labels_dict_inj (a b : string) (v : Z) :
  Demo.labels_dict !! a = Some v → Demo.labels_dict !! b = Some v → a = b.
Proof.
  unfold Demo.labels_dict. rewrite !lookup_insert_Some, !lookup_empty.
  intuition congruence.
Qed.

Lemma label_encoding_witness :
  Forall2 (λ fold args,
      (∀ i j v, y_test args !! i = Some (Some v) → y_test args !! j = Some (Some v) →
                yTest fold !! i = yTest fold !! j ∧ is_Some (yTest fold !! i)) ∧
      (∃ y, yTrains fold !! 0 = Some y ∧
         ∀ i j v, y_train args !! i = Some (Some v) → y_train args !! j = Some (Some v) →
                  y !! i = y !! j ∧ is_Some (y !! i)))
    Demo.folds (Demo.parameters 0).
Proof.
  apply (label_encoding_loses_nothing Demo.folds 0 Demo.labels_dict (Demo.parameters 0)).
  - exact demo_labels_dict_inj.
  - by vm_compute.
Defined.

Lemma resampling_comes_first_witness :
  let lone := set_generation BaggingClassifier (Some SMOTE) Demo.no_args in
  let args := set_generation BaggingClassifier (Some SMOTE)
                (nth 0 (Demo.parameters 0) Demo.no_args) in
  process_generation lone []
  = ([call_balance_dataset [] [] SMOTE], [], inl (Raised "too few examples to resample")) ∧
  process_generation args []
  = ([call_balance_dataset (X_train args) (y_train args) SMOTE;
      call_gen_ensemble (X_train args) (y_train args) BaggingClassifier
        (mkPerceptron 1000 (-1)) 100],
     [] ++ [Trained <$> seq 0 100], inr (length (@nil (list Estimator)))).
Proof.
  split.
  - apply (resampling_comes_first
             (set_generation BaggingClassifier (Some SMOTE) Demo.no_args)
             BaggingClassifier SMOTE []); reflexivity.
  - apply (resampling_comes_first
             (set_generation BaggingClassifier (Some SMOTE)
                (nth 0 (Demo.parameters 0) Demo.no_args))
             BaggingClassifier SMOTE []); reflexivity.
Defined.

Lemma one_pool_per_fold_witness :
  Demo.pools 0 SGH = seq 0 (length (Demo.parameters 0)) ∧
  Forall2 same_data (Demo.parameters 0) (Demo.bundles 0 SGH) ∧
  ∃ new, Demo.store 0 SGH = [] ++ new ∧
    Forall2 (λ param stored, ∃ X y members,
        @inr Exn _ (X_train param, y_train param) = inr (X, y) ∧
        gen_ensemble X y SGH (mkPerceptron 1000 (-1)) 100 = inr members ∧
        stored = Trained <$> members) (Demo.parameters 0) new.
Proof.
  apply (one_pool_per_fold (Demo.parameters 0) SGH None []
           (Demo.generation 0 SGH).1.1 (Demo.store 0 SGH)
           (Demo.bundles 0 SGH) (Demo.pools 0 SGH)).
  by vm_compute.
Defined.

Lemma generation_stops_at_first_failure_witness :
  let parameters := Demo.parameters 0 ++ [Demo.no_args] in
  ∃ calls σ',
    experiment_generation parameters SGH (Some SMOTE) []
    = (calls, σ', inl (Raised "too few examples to resample")) ∧
    ∃ new, σ' = [] ++ new ∧ length new = length (Demo.parameters 0).
Proof.
  eexists _, _.
  apply (generation_stops_at_first_failure
           (Demo.parameters 0 ++ [Demo.no_args]) SGH (Some SMOTE)
           (Demo.parameters 0) Demo.no_args [] []
           (map_list process_generation
              (set_generation SGH (Some SMOTE) <$> Demo.parameters 0) []).1.1
           (map_list process_generation
              (set_generation SGH (Some SMOTE) <$> Demo.parameters 0) []).1.2
           [0; 1; 2]
           [call_balance_dataset [] [] SMOTE]).
  - reflexivity.
  - by vm_compute.
  - by vm_compute.
Defined.

Lemma surplus_folds_are_dropped_witness :
  let results :=
    match (experiment_selection (Demo.bundles 0 BaggingClassifier) [0; 1] 0
             BaggingClassifier OLA 0 (Demo.store 0 BaggingClassifier)).2 with
    | inr rs => rs
    | inl _ => []
    end in
  length (Demo.bundles 0 BaggingClassifier) = 3 ∧
  length results = 2 ∧
  ∀ i r, results !! i = Some r →
    res_fold_name r = "Fold_" +:+ pretty (i + 1) ∧
    ∃ param pool e,
      Demo.bundles 0 BaggingClassifier !! i = Some param ∧
      [0; 1] !! i = Some pool ∧
      predict e (X_test param) None = inr (res_predictions r).
Proof.
  split; [reflexivity|].
  apply (surplus_folds_are_dropped
           (Demo.bundles 0 BaggingClassifier) [0; 1] 0 BaggingClassifier OLA 0
           (Demo.store 0 BaggingClassifier)
           (experiment_selection (Demo.bundles 0 BaggingClassifier) [0; 1] 0
              BaggingClassifier OLA 0 (Demo.store 0 BaggingClassifier)).1.1
           (experiment_selection (Demo.bundles 0 BaggingClassifier) [0; 1] 0
              BaggingClassifier OLA 0 (Demo.store 0 BaggingClassifier)).1.2).
  by vm_compute.
Defined.

Lemma cell_without_folds_witness :
  experiment_selection [] (Demo.pools 0 SGH) 7 SGH KNOP 0 (Demo.store 0 SGH)
  = ([call_Pool 5; call_pool_close], Demo.store 0 SGH, inr []) ∧
  save_metrics [] Demo.activities = inl ValueError.
Proof.
  apply (cell_without_folds [] (Demo.pools 0 SGH) 7 SGH KNOP 0 (Demo.store 0 SGH)
           Demo.activities).
  by left.
Defined.

Lemma evaluation_only_adds_to_the_store_witness :
  let pools := replicate 3 (@Trained Demo.domain <$> seq 0 100) in
  Forall2 (λ l pool, Demo.store 0 SGH !! l = Some pool) (Demo.pools 0 SGH) pools ∧
  ∃ calls new r, ∀ σ : list (list Estimator),
    Forall2 (λ l pool, σ !! l = Some pool) (Demo.pools 0 SGH) pools →
    experiment_selection (Demo.bundles 0 SGH) (Demo.pools 0 SGH) 0 SGH KNOP 0 σ
    = (calls, σ ++ new, r).
Proof.
  split.
  - vm_compute. repeat constructor.
  - apply (evaluation_only_adds_to_the_store (Demo.bundles 0 SGH) (Demo.pools 0 SGH)
             0 SGH KNOP 0 (replicate 3 (@Trained Demo.domain <$> seq 0 100))).
Defined.

Lemma failed_calibration_witness :
  let args := Demo.job 1 SGH METADES 1 in
  process_selection args (Demo.store 1 SGH)
  = (calibration_calls (X_train args) (y_train args) (@Trained Demo.domain 0),
     Demo.store 1 SGH ++ [[]], inl (Raised "calibration needs two classes")).
Proof.
  apply (failed_calibration_stops_the_fold
           (Demo.job 1 SGH METADES 1) (Demo.store 1 SGH) 1 "Fold_2" METADES 80%Z
           [] (@Trained Demo.domain 0) (@Trained Demo.domain <$> seq 1 99)
           (Raised "calibration needs two classes")).
  - by vm_compute.
  - by vm_compute.
  - by vm_compute.
  - by vm_compute.
  - by left.
  - by vm_compute.
  - by vm_compute.
  - intros c Hc. by apply elem_of_nil in Hc.
  - by vm_compute.
Defined.

Lemma stored_pool_goes_to_the_selector_witness :
  let args := Demo.job 0 BaggingClassifier OLA 0 in
  ∃ rest r,
    process_selection args (Demo.store 0 BaggingClassifier)
    = (call_ds_ensemble (X_train args) (y_train args) (Trained <$> seq 0 100) OLA :: rest,
       Demo.store 0 BaggingClassifier, r) ∧
    Forall (λ c, ¬ uses_pool c) rest.
Proof.
  apply (stored_pool_goes_to_the_selector
           (Demo.job 0 BaggingClassifier OLA 0) (Demo.store 0 BaggingClassifier)
           0 "Fold_1" BaggingClassifier OLA 70%Z (Trained <$> seq 0 100)).
  - by vm_compute.
  - by vm_compute.
  - by vm_compute.
  - by vm_compute.
  - by vm_compute.
  - done.
  - by intros [? _].
  - by vm_compute.
Defined.

Lemma forest_predicts_twice_witness :
  let args := Demo.job 0 BaggingClassifier RandomForestClassifier 1 in
  let predictions := [Some 0; Some 1; Some 2; Some 1]%Z in
  ∃ rest r,
    process_selection args (Demo.store 0 BaggingClassifier)
    = ([call_RandomForestClassifier 80%Z;
        call_forest_fit 80%Z (X_train args) (y_train args);
        call_predict (Demo.Forest 80) (X_test args) None;
        call_predict (Demo.Forest 80) (X_test args) None;
        call_confusion_matrix_score (y_test args) predictions] ++ rest,
       Demo.store 0 BaggingClassifier, r) ∧
    Forall (λ c, ∃ metric_name, c = call_metric metric_name (y_test args) predictions)
      rest ∧
    ∀ res, r = inr res → res_predictions res = predictions.
Proof.
  apply (forest_predicts_twice
           (Demo.job 0 BaggingClassifier RandomForestClassifier 1)
           (Demo.store 0 BaggingClassifier) 1 "Fold_2" BaggingClassifier 80%Z
           (Demo.Forest 80) [Some 0; Some 1; Some 2; Some 1]%Z); by vm_compute.
Defined.

Lemma stale_entries_are_overwritten_witness :
  Forall2 same_data (Demo.parameters 0) (Demo.jobs 0 SGH KNOP) ∧
  experiment_selection (Demo.parameters 0) (Demo.pools 0 BaggingClassifier) 0
    BaggingClassifier OLA 0 (Demo.store 0 BaggingClassifier)
  = experiment_selection (Demo.jobs 0 SGH KNOP) (Demo.pools 0 BaggingClassifier) 0
      BaggingClassifier OLA 0 (Demo.store 0 BaggingClassifier) ∧
  prod_map id (sum_map id snd)
    (experiment_generation (Demo.parameters 0) BaggingClassifier None
       (Demo.store 0 BaggingClassifier))
  = prod_map id (sum_map id snd)
      (experiment_generation (Demo.jobs 0 SGH KNOP) BaggingClassifier None
         (Demo.store 0 BaggingClassifier)).
Proof.
  assert (Forall2 same_data (Demo.parameters 0) (Demo.jobs 0 SGH KNOP)) as Hsame.
  { vm_compute. repeat constructor. }
  split; [exact Hsame|].
  exact (stale_entries_are_overwritten (Demo.parameters 0) (Demo.jobs 0 SGH KNOP)
           (Demo.pools 0 BaggingClassifier) 0 BaggingClassifier OLA 0 None
           (Demo.store 0 BaggingClassifier) Hsame).
Defined.

Lemma merged_matrix_ignores_fold_order_witness :
  ∃ agg agg',
    save_metrics (Demo.results 0 BaggingClassifier OLA) Demo.activities = inr agg ∧
    save_metrics (reverse (Demo.results 0 BaggingClassifier OLA)) Demo.activities
      = inr agg' ∧
    pd.values (agg_cm agg') = pd.values (agg_cm agg) ∧
    agg_predictions agg' ≡ₚ agg_predictions agg.
Proof.
  apply (merged_matrix_ignores_fold_order (Demo.results 0 BaggingClassifier OLA)
           (reverse (Demo.results 0 BaggingClassifier OLA)) Demo.activities).
  - exact NoDup_demo_activities.
  - by vm_compute.
  - vm_compute. repeat constructor; lia.
  - symmetry. apply reverse_Permutation.
Defined.

End more_examples.
